(** * PlacementPanic: the answer evaluator and the in-memory answer store

    A shallow embedding of [server/answer-service.ts] (the scoring
    heuristic [AnswerEvaluator] and the store [MemAnswerStorage]) and of
    the part of the submission route that creates answer records,
    followed by the properties the specification states about them. *)

From Stdlib Require Import ZArith NArith Lia Bool.
From stdpp Require Import strings list gmap.

Local Open Scope Z_scope.

(** ** JavaScript strings

    A JavaScript string is a sequence of UTF-16 code units; [length],
    [includes], [split] and [===] all work on code units, so a string is
    modelled as the list of its code units. *)

Abbreviation jsstring := (list N).

(** The code units of a literal written in the source (all literals of
    the service are ASCII). *)
Definition lit (s : string) : jsstring :=
  (fun a => Ascii.N_of_ascii a) <$> String.list_ascii_of_string s.

(** The class [\s] of a JavaScript regular expression (white space and
    line terminators); [String.prototype.trim] strips the same set. *)
Definition isWhitespace (c : N) : bool :=
  ((9 <=? c) && (c <=? 13) || (c =? 32) || (c =? 160) || (c =? 5760)
   || (8192 <=? c) && (c <=? 8202) || (c =? 8232) || (c =? 8233)
   || (c =? 8239) || (c =? 8287) || (c =? 12288) || (c =? 65279))%N.

(** [sub] is a prefix of [s]. *)
Fixpoint startsWith (s sub : jsstring) {struct sub} : bool :=
  match sub, s with
  | [], _ => true
  | _ :: _, [] => false
  | x :: sub', y :: s' => (x =? y)%N && startsWith s' sub'
  end.

(** [s.includes(sub)]: [sub] occurs at some position of [s]. *)
Fixpoint includes (s sub : jsstring) : bool :=
  startsWith s sub ||
  match s with
  | [] => false
  | _ :: s' => includes s' sub
  end.

(** Puts one more code unit in front of the first piece. *)
Definition consHead (c : N) (pieces : list jsstring) : list jsstring :=
  match pieces with
  | [] => [[c]]
  | t :: ts => (c :: t) :: ts
  end.

(** [s.split(/\s+/)].  Every maximal run of white space is one separator;
    the text before the first separator and the text after the last one
    are pieces even when they are empty, so the result is never empty.
    [inRun] tells that the code unit just read was part of a separator. *)
Fixpoint splitFrom (inRun : bool) (s : jsstring) : list jsstring :=
  match s with
  | [] => [[]]
  | c :: r =>
      if isWhitespace c then
        if inRun then splitFrom true r else [] :: splitFrom true r
      else consHead c (splitFrom false r)
  end.

Definition splitWhitespace (s : jsstring) : list jsstring := splitFrom false s.

(** [s.split("\n")]: every line feed is a separator. *)
Fixpoint splitLines (s : jsstring) : list jsstring :=
  match s with
  | [] => [[]]
  | c :: r =>
      if (c =? 10)%N then [] :: splitLines r else consHead c (splitLines r)
  end.

(** [s.trim()], used to compare the word count with that of the trimmed
    text. *)
Fixpoint trimStart (s : jsstring) : jsstring :=
  match s with
  | [] => []
  | c :: r => if isWhitespace c then trimStart r else s
  end.

Fixpoint trimEnd (s : jsstring) : jsstring :=
  match s with
  | [] => []
  | c :: r =>
      match trimEnd r with
      | [] => if isWhitespace c then [] else [c]
      | r' => c :: r'
      end
  end.

Definition trim (s : jsstring) : jsstring := trimEnd (trimStart s).

Definition startsWithWhitespace (s : jsstring) : bool :=
  match s with
  | [] => false
  | c :: _ => isWhitespace c
  end.

Fixpoint endsWithWhitespace (s : jsstring) : bool :=
  match s with
  | [] => false
  | c :: r =>
      match r with
      | [] => isWhitespace c
      | _ :: _ => endsWithWhitespace r
      end
  end.

(** ** The answer evaluator ([AnswerEvaluator])

    [String.prototype.toLowerCase] is the Unicode lower-case mapping of
    the runtime.  The evaluator is embedded over an arbitrary mapping, so
    that what is proved of it holds for the runtime's; [asciiToLowerCase]
    below is used to run the evaluator on ASCII texts. *)

(** The object [evaluateAnswer] resolves to ([AnswerEvaluation] of
    [shared/schema.ts]). *)
Record AnswerEvaluation := {
  ev_score : Z;
  ev_feedback : jsstring;
  ev_strengths : list jsstring;
  ev_improvements : list jsstring;
  ev_suggestions : list jsstring;
  ev_evaluationTime : Z
}.

Definition technicalKeywords : list jsstring :=
  lit <$> [ "algorithm"; "time complexity"; "space complexity"; "optimization";
            "database"; "api"; "async"; "promise"; "callback"; "inheritance";
            "encapsulation"; "polymorphism"; "design pattern"; "microservice";
            "cache"; "index"; "query"; "transaction"; "concurrency"; "thread" ]%string.

Section Evaluator.

Variable toLowerCase : jsstring -> jsstring.

(** [text.split(/\s+/).length] *)
Definition wordCount (text : jsstring) : Z :=
  Z.of_nat (length (splitWhitespace text)).

(** The loop of [countTechnicalTerms]: one [count++] per keyword of the
    table that the lower-cased text includes. *)
Definition countTechnicalTerms (text : jsstring) : Z :=
  let lowerText := toLowerCase text in
  fold_left (fun count keyword =>
               if includes lowerText keyword then count + 1 else count)
            technicalKeywords 0.

(** The condition of the structure bonus: a line feed, a colon, a
    semicolon or a comma. *)
Definition hasStructure (answerText : jsstring) : bool :=
  includes answerText [10%N] || includes answerText (lit ":")
  || includes answerText (lit ";") || includes answerText (lit ",").

Definition questionTerms (questionText : jsstring) : list jsstring :=
  filter (fun w => (3 < length w)%nat) (splitWhitespace questionText).

Definition relevantTerms (answerText questionText : jsstring) : list jsstring :=
  filter (fun term => includes (toLowerCase answerText) (toLowerCase term) = true)
         (questionTerms questionText).

Definition calculateScore (answerText questionText difficulty : jsstring) : Z :=
  let score := 50 in
  let wordCount := wordCount answerText in
  let score :=
    if bool_decide (difficulty = lit "easy") then
      if 30 <=? wordCount then score + 20
      else if 15 <=? wordCount then score + 10 else score
    else if bool_decide (difficulty = lit "medium") then
      if 60 <=? wordCount then score + 20
      else if 40 <=? wordCount then score + 10 else score
    else
      if 100 <=? wordCount then score + 20
      else if 70 <=? wordCount then score + 10 else score in
  let technicalTerms := countTechnicalTerms answerText in
  let score := score + Z.min (technicalTerms * 3) 15 in
  let score := if hasStructure answerText then score + 10 else score in
  let relevantTerms := relevantTerms answerText questionText in
  let score :=
    if 0 <? Z.of_nat (length relevantTerms)
    then score + Z.min (Z.of_nat (length relevantTerms) * 5) 15
    else score in
  Z.min (Z.max score 0) 100.

Definition generateFeedback
    (answerText questionText : jsstring) (score : Z)
    (category difficulty : jsstring) : jsstring :=
  let wordCount := wordCount answerText in
  let feedback :=
    if 80 <=? score then
      lit "Excellent answer! You provided a comprehensive response to the "
      ++ category
      ++ lit " question. Your explanation demonstrates strong understanding."
    else if 60 <=? score then
      lit "Good response! Your answer shows solid understanding of the topic."
    else if 40 <=? score then
      lit "Your answer covers the basics but could be more detailed."
    else
      lit "Your answer needs improvement. Try including more technical depth and examples." in
  if (wordCount <? 20) && negb (bool_decide (difficulty = lit "easy"))
  then feedback ++ lit "Consider providing more details in your answer."
  else feedback.

Definition analyzeAnswer (answerText difficulty : jsstring)
    : list jsstring * list jsstring :=
  let strengths := [] in
  let improvements := [] in
  let '(strengths, improvements) :=
    if includes answerText (lit "```") || includes answerText (lit "{")
       || includes answerText (lit "[")
    then (strengths ++ [lit "Good: Included code examples or pseudo-code"], improvements)
    else if negb (bool_decide (difficulty = lit "easy"))
    then (strengths, improvements ++ [lit "Consider adding code examples to illustrate concepts"])
    else (strengths, improvements) in
  let '(strengths, improvements) :=
    if (3 <? length (splitLines answerText))%nat
    then (strengths ++ [lit "Good: Well-structured and organized answer"], improvements)
    else (strengths, improvements ++ [lit "Try formatting your answer with line breaks for clarity"]) in
  let '(strengths, improvements) :=
    if includes (toLowerCase answerText) (lit "algorithm")
       || includes (toLowerCase answerText) (lit "complexity")
       || includes (toLowerCase answerText) (lit "optimization")
    then (strengths ++ [lit "Good: Used appropriate technical terminology"], improvements)
    else if bool_decide (difficulty = lit "medium") || bool_decide (difficulty = lit "hard")
    then (strengths, improvements ++ [lit "Use more technical terminology specific to the domain"])
    else (strengths, improvements) in
  let '(strengths, improvements) :=
    if includes answerText (lit "because") || includes answerText (lit "therefore")
       || includes answerText (lit "this means")
    then (strengths ++ [lit "Good: Clear explanations and reasoning"], improvements)
    else (strengths, improvements ++ [lit "Explain your reasoning behind key points"]) in
  let strengths :=
    if (length strengths =? 0)%nat
    then strengths ++ [lit "Attempted to answer the question"] else strengths in
  let improvements :=
    if (length improvements =? 0)%nat
    then improvements ++ [lit "Keep practicing with similar questions"] else improvements in
  (strengths, improvements).

Definition generateSuggestions
    (category difficulty : jsstring) (improvements : list jsstring) : list jsstring :=
  let suggestions :=
    [ lit "Practice more " ++ difficulty ++ lit " level " ++ category ++ lit " questions";
      lit "Review resources and documentation for this topic";
      lit "Explain your answers out loud to practice communication";
      lit "Mock interviews help - they simulate real interview conditions" ] in
  if bool_decide (difficulty = lit "hard") then
    suggestions ++ [ lit "Work through similar problems step by step";
                     lit "Understand the core concepts before attempting harder variants" ]
  else suggestions.

(** The values handed to the progress observer: [(((i + 1) / 5) * 100) | 0]
    for [i] from 0 to 4, that is 20, 40, 60, 80 and 100. *)
Definition progressSteps : list Z :=
  (fun i => (Z.of_nat i + 1) * 100 / 5) <$> seq 0 5.

(** What a run of [evaluateAnswer] reads from outside its arguments: the
    two readings of [Date.now()].  The observer [onProgress], when given,
    acts on a state of its own of type [Obs]. *)
Record Clock := { startReading : Z; endReading : Z }.

Definition evaluateAnswer {Obs : Type}
    (answerText questionText difficulty category : jsstring)
    (onProgress : option (Z -> Obs -> Obs)) (clock : Clock) (obs : Obs)
    : Obs * AnswerEvaluation :=
  let startTime := startReading clock in
  let obs :=
    match onProgress with
    | Some report => fold_left (fun o p => report p o) progressSteps obs
    | None => obs
    end in
  let score := calculateScore answerText questionText difficulty in
  let feedback := generateFeedback answerText questionText score category difficulty in
  let '(strengths, improvements) := analyzeAnswer answerText difficulty in
  let suggestions := generateSuggestions category difficulty improvements in
  let evaluationTime := endReading clock - startTime in
  (obs, {| ev_score := score; ev_feedback := feedback;
           ev_strengths := strengths; ev_improvements := improvements;
           ev_suggestions := suggestions; ev_evaluationTime := evaluationTime |}).

(** *** The score as the specification describes it

    A baseline of 50, four adjustments, and a final clamp. *)

Definition clamp (x lo hi : Z) : Z := Z.min (Z.max x lo) hi.

Definition highThreshold (difficulty : jsstring) : Z :=
  if bool_decide (difficulty = lit "easy") then 30
  else if bool_decide (difficulty = lit "medium") then 60 else 100.

Definition midThreshold (difficulty : jsstring) : Z :=
  if bool_decide (difficulty = lit "easy") then 15
  else if bool_decide (difficulty = lit "medium") then 40 else 70.

Definition lengthAdjustment (difficulty : jsstring) (words : Z) : Z :=
  if highThreshold difficulty <=? words then 20
  else if midThreshold difficulty <=? words then 10 else 0.

Definition technicalAdjustment (answerText : jsstring) : Z :=
  Z.min (countTechnicalTerms answerText * 3) 15.

Definition structureAdjustment (answerText : jsstring) : Z :=
  if hasStructure answerText then 10 else 0.

Definition relevanceAdjustment (answerText questionText : jsstring) : Z :=
  Z.min (Z.of_nat (length (relevantTerms answerText questionText)) * 5) 15.

Definition adjustments (answerText questionText difficulty : jsstring) : Z :=
  lengthAdjustment difficulty (wordCount answerText)
  + technicalAdjustment answerText
  + structureAdjustment answerText
  + relevanceAdjustment answerText questionText.

End Evaluator.

(** [sub] occurs in [s] as a substring, at any position. *)
Definition occursIn (sub s : jsstring) : Prop :=
  exists pre post, s = pre ++ sub ++ post.

(** [n] is the number of elements of [l] that satisfy [P], counted with
    their multiplicity in [l]. *)
Inductive countWhere {A : Type} (P : A -> Prop) : list A -> nat -> Prop :=
  | countWhere_nil : countWhere P [] 0
  | countWhere_hit x l n :
      P x -> countWhere P l n -> countWhere P (x :: l) (S n)
  | countWhere_miss x l n :
      ~ P x -> countWhere P l n -> countWhere P (x :: l) n.

(** Lower-casing of the letters A to Z; it agrees with the runtime's
    [toLowerCase] on ASCII text. *)
Definition asciiToLowerCase (s : jsstring) : jsstring :=
  (fun c => if (65 <=? c) && (c <=? 90) then c + 32 else c)%N <$> s.

(** ** The answer store ([MemAnswerStorage])

    Records follow the [answers] table of [shared/schema.ts]: the columns
    that are not declared [notNull] may be absent.  Dates are instants in
    milliseconds. *)

Module Answer.
Record t := {
  id : jsstring;
  interviewId : jsstring;
  questionId : jsstring;
  userId : jsstring;
  answerText : jsstring;
  confidence : option Z;
  feedback : option jsstring;
  score : option Z;
  evaluationStatus : option jsstring;
  submittedAt : option Z;
  evaluatedAt : option Z
}.
End Answer.

(** [Omit<Answer, "id" | "submittedAt">], the argument of [saveAnswer]. *)
Module NewAnswer.
Record t := {
  interviewId : jsstring;
  questionId : jsstring;
  userId : jsstring;
  answerText : jsstring;
  confidence : option Z;
  feedback : option jsstring;
  score : option Z;
  evaluationStatus : option jsstring;
  evaluatedAt : option Z
}.
End NewAnswer.

(** [SubmitAnswerInput], what [submitAnswerSchema.parse] returns. *)
Module SubmitAnswerInput.
Record t := {
  interviewId : jsstring;
  questionId : jsstring;
  answerText : jsstring;
  confidence : option Z
}.
End SubmitAnswerInput.

(** A call either returns a value or throws an [Error] with a message. *)
Inductive outcome (A : Type) : Type :=
  | Returned (a : A)
  | Thrown (message : jsstring).
Arguments Returned {A} a.
Arguments Thrown {A} message.

(** [saveAnswer]; [uuid] is the result of [randomUUID()] and [now] the
    instant of [new Date()].  Returns the new contents of the map and the
    record. *)
Definition saveAnswer (uuid : jsstring) (now : Z) (answer : NewAnswer.t)
    (answers : gmap jsstring Answer.t) : gmap jsstring Answer.t * Answer.t :=
  let id := uuid in
  let newAnswer :=
    {| Answer.id := id;
       Answer.interviewId := NewAnswer.interviewId answer;
       Answer.questionId := NewAnswer.questionId answer;
       Answer.userId := NewAnswer.userId answer;
       Answer.answerText := NewAnswer.answerText answer;
       Answer.confidence := NewAnswer.confidence answer;
       Answer.feedback := NewAnswer.feedback answer;
       Answer.score := NewAnswer.score answer;
       Answer.evaluationStatus := NewAnswer.evaluationStatus answer;
       Answer.submittedAt := Some now;
       Answer.evaluatedAt := NewAnswer.evaluatedAt answer |} in
  (<[id := newAnswer]> answers, newAnswer).

(** [updateAnswerEvaluation]; a throw leaves the map as it was. *)
Definition updateAnswerEvaluation (answerId : jsstring)
    (evaluation : AnswerEvaluation) (now : Z)
    (answers : gmap jsstring Answer.t)
    : gmap jsstring Answer.t * outcome Answer.t :=
  match answers !! answerId with
  | None => (answers, Thrown (lit "Answer " ++ answerId ++ lit " not found"))
  | Some answer =>
      let updated :=
        {| Answer.id := Answer.id answer;
           Answer.interviewId := Answer.interviewId answer;
           Answer.questionId := Answer.questionId answer;
           Answer.userId := Answer.userId answer;
           Answer.answerText := Answer.answerText answer;
           Answer.confidence := Answer.confidence answer;
           Answer.feedback := Some (ev_feedback evaluation);
           Answer.score := Some (ev_score evaluation);
           Answer.evaluationStatus := Some (lit "completed");
           Answer.submittedAt := Answer.submittedAt answer;
           Answer.evaluatedAt := Some now |} in
      (<[answerId := updated]> answers, Returned updated)
  end.

Definition getAnswer (answerId : jsstring)
    (answers : gmap jsstring Answer.t) : option Answer.t :=
  answers !! answerId.

(** The record the route [POST /api/answers/submit] hands to [saveAnswer]:
    the parsed body, the id of the authenticated user and the status
    [pending]. *)
Definition submitRecord (data : SubmitAnswerInput.t) (userId : jsstring)
    : NewAnswer.t :=
  {| NewAnswer.interviewId := SubmitAnswerInput.interviewId data;
     NewAnswer.questionId := SubmitAnswerInput.questionId data;
     NewAnswer.userId := userId;
     NewAnswer.answerText := SubmitAnswerInput.answerText data;
     NewAnswer.confidence := SubmitAnswerInput.confidence data;
     NewAnswer.feedback := None;
     NewAnswer.score := None;
     NewAnswer.evaluationStatus := Some (lit "pending");
     NewAnswer.evaluatedAt := None |}.

(** The first step of the route: the record is saved before the response
    is sent and before the evaluation is started. *)
Definition submitAnswer (data : SubmitAnswerInput.t) (userId uuid : jsstring)
    (now : Z) (answers : gmap jsstring Answer.t)
    : gmap jsstring Answer.t * Answer.t :=
  saveAnswer uuid now (submitRecord data userId) answers.

(** ** The routes over the answer store

    The part of [registerRoutes] that serves answers.  A handler is
    embedded from the point where the request has been authenticated and
    its body parsed; what it sends is a [response].  The table of
    questions ([storage.questions]) is an argument. *)

(** A row of the [questions] table of [shared/schema.ts]. *)
Module Question.
Record t := {
  id : jsstring;
  text : jsstring;
  category : jsstring;
  difficulty : jsstring
}.
End Question.

(** What a handler passes to [res.json], with the status code set before
    (200 when none is set). *)
Inductive response : Type :=
  | SubmitJson (answerId status message : jsstring)
  | EvaluationJson (answerId : jsstring) (status : option jsstring)
      (score : option Z) (feedback : option jsstring) (evaluatedAt : option Z)
  | AnswersJson (answers : list Answer.t)
  | ErrorJson (code : Z) (error : jsstring).

(** What [POST /api/answers/submit] reads from outside the request: the
    id drawn for the record, the instant of the submission, the clock of
    the evaluation and the instant of the update. *)
Record SubmitEnv := {
  drawnId : jsstring;
  submittedNow : Z;
  evaluationClock : Clock;
  evaluatedNow : Z
}.

(** [questions.find((q) => q.id === questionId)]: the first match. *)
Definition findQuestion (questionId : jsstring) (questions : list Question.t)
    : option Question.t :=
  List.find (fun q => bool_decide (Question.id q = questionId)) questions.

(** [POST /api/answers/submit] after the body is parsed.  Returns the map
    afterwards and the responses the handler sends, in order: the second
    one is the 500 of the [catch] block, reached when a call after the
    first response throws. *)
Definition submitHandler (toLowerCase : jsstring -> jsstring)
    (data : SubmitAnswerInput.t) (userId : jsstring)
    (questions : list Question.t) (env : SubmitEnv)
    (answers : gmap jsstring Answer.t)
    : gmap jsstring Answer.t * list response :=
  let '(answers, answer) :=
    saveAnswer (drawnId env) (submittedNow env) (submitRecord data userId) answers in
  let sent :=
    [SubmitJson (Answer.id answer) (lit "evaluating")
       (lit "Your answer is being evaluated...")] in
  match findQuestion (SubmitAnswerInput.questionId data) questions with
  | Some question =>
      let evaluation :=
        (evaluateAnswer toLowerCase (SubmitAnswerInput.answerText data)
           (Question.text question) (Question.difficulty question)
           (Question.category question)
           (None : option (Z -> unit -> unit)) (evaluationClock env) tt).2 in
      match updateAnswerEvaluation (Answer.id answer) evaluation
              (evaluatedNow env) answers with
      | (answers, Returned _) => (answers, sent)
      | (answers, Thrown _) =>
          (answers, sent ++ [ErrorJson 500 (lit "Failed to submit answer")])
      end
  | None => (answers, sent)
  end.

(** [GET /api/answers/:id/evaluation] for the authenticated user. *)
Definition evaluationHandler (answerId userId : jsstring)
    (answers : gmap jsstring Answer.t) : response :=
  match getAnswer answerId answers with
  | None => ErrorJson 404 (lit "Answer not found")
  | Some answer =>
      if bool_decide (Answer.userId answer <> userId)
      then ErrorJson 403 (lit "Not authorized")
      else EvaluationJson (Answer.id answer) (Answer.evaluationStatus answer)
             (Answer.score answer) (Answer.feedback answer)
             (Answer.evaluatedAt answer)
  end.

(** ** The store with the order of its entries

    A JavaScript [Map] keeps its entries in the order in which their keys
    were first set, and [values()] lists them in that order.  The finite
    map above forgets the order; [getAnswersByInterview] shows it, so the
    store is embedded a second time with its entries in order. *)

Module Ordered.

Abbreviation entries := (list (jsstring * Answer.t)).

(** [Map.prototype.get] *)
Fixpoint mapGet (key : jsstring) (m : entries) : option Answer.t :=
  match m with
  | [] => None
  | (k, v) :: rest => if bool_decide (k = key) then Some v else mapGet key rest
  end.

(** [Map.prototype.set]: the value of a key already there is replaced in
    place, a new key goes to the end. *)
Fixpoint mapSet (key : jsstring) (value : Answer.t) (m : entries) : entries :=
  match m with
  | [] => [(key, value)]
  | (k, v) :: rest =>
      if bool_decide (k = key) then (key, value) :: rest
      else (k, v) :: mapSet key value rest
  end.

(** [Array.from(m.values())] *)
Definition mapValues (m : entries) : list Answer.t := m.*2.

Definition saveAnswer (uuid : jsstring) (now : Z) (answer : NewAnswer.t)
    (answers : entries) : entries * Answer.t :=
  let id := uuid in
  let newAnswer :=
    {| Answer.id := id;
       Answer.interviewId := NewAnswer.interviewId answer;
       Answer.questionId := NewAnswer.questionId answer;
       Answer.userId := NewAnswer.userId answer;
       Answer.answerText := NewAnswer.answerText answer;
       Answer.confidence := NewAnswer.confidence answer;
       Answer.feedback := NewAnswer.feedback answer;
       Answer.score := NewAnswer.score answer;
       Answer.evaluationStatus := NewAnswer.evaluationStatus answer;
       Answer.submittedAt := Some now;
       Answer.evaluatedAt := NewAnswer.evaluatedAt answer |} in
  (mapSet id newAnswer answers, newAnswer).

Definition updateAnswerEvaluation (answerId : jsstring)
    (evaluation : AnswerEvaluation) (now : Z) (answers : entries)
    : entries * outcome Answer.t :=
  match mapGet answerId answers with
  | None => (answers, Thrown (lit "Answer " ++ answerId ++ lit " not found"))
  | Some answer =>
      let updated :=
        {| Answer.id := Answer.id answer;
           Answer.interviewId := Answer.interviewId answer;
           Answer.questionId := Answer.questionId answer;
           Answer.userId := Answer.userId answer;
           Answer.answerText := Answer.answerText answer;
           Answer.confidence := Answer.confidence answer;
           Answer.feedback := Some (ev_feedback evaluation);
           Answer.score := Some (ev_score evaluation);
           Answer.evaluationStatus := Some (lit "completed");
           Answer.submittedAt := Answer.submittedAt answer;
           Answer.evaluatedAt := Some now |} in
      (mapSet answerId updated answers, Returned updated)
  end.

Definition getAnswersByInterview (interviewId : jsstring) (answers : entries)
    : list Answer.t :=
  filter (fun a => Answer.interviewId a = interviewId) (mapValues answers).

Definition getAnswer (answerId : jsstring) (answers : entries)
    : option Answer.t :=
  mapGet answerId answers.

(** The finite map that forgets the order. *)
Definition contents (m : entries) : gmap jsstring Answer.t := list_to_map m.


End Ordered.

(** The record [saveAnswer] builds and the one [updateAnswerEvaluation]
    builds, by name. *)
Definition created (uuid : jsstring) (now : Z) (answer : NewAnswer.t)
    : Answer.t :=
  (saveAnswer uuid now answer ∅).2.

Definition evaluated (answer : Answer.t) (evaluation : AnswerEvaluation)
    (now : Z) : Answer.t :=
  {| Answer.id := Answer.id answer;
     Answer.interviewId := Answer.interviewId answer;
     Answer.questionId := Answer.questionId answer;
     Answer.userId := Answer.userId answer;
     Answer.answerText := Answer.answerText answer;
     Answer.confidence := Answer.confidence answer;
     Answer.feedback := Some (ev_feedback evaluation);
     Answer.score := Some (ev_score evaluation);
     Answer.evaluationStatus := Some (lit "completed");
     Answer.submittedAt := Answer.submittedAt answer;
     Answer.evaluatedAt := Some now |}.

(** ** What the routes keep true of the store

    A record is blank while pending and complete once evaluated, and it
    is stored under its own id. *)

Definition blankPending (a : Answer.t) : Prop :=
  Answer.evaluationStatus a = Some (lit "pending")
  /\ Answer.score a = None /\ Answer.feedback a = None
  /\ Answer.evaluatedAt a = None.

Definition fullyEvaluated (a : Answer.t) : Prop :=
  Answer.evaluationStatus a = Some (lit "completed")
  /\ (exists score, Answer.score a = Some score /\ 50 <= score <= 100)
  /\ is_Some (Answer.feedback a) /\ is_Some (Answer.evaluatedAt a).

Definition storeInvariant (answers : gmap jsstring Answer.t) : Prop :=
  forall key a, answers !! key = Some a ->
    Answer.id a = key
    /\ is_Some (Answer.submittedAt a)
    /\ (blankPending a \/ fullyEvaluated a).

(** The stores the submission route can build, starting from the empty
    one. *)
Inductive reachable (toLowerCase : jsstring -> jsstring)
    : gmap jsstring Answer.t -> Prop :=
  | reachable_empty : reachable toLowerCase ∅
  | reachable_submit data userId questions env answers :
      reachable toLowerCase answers ->
      reachable toLowerCase
        (submitHandler toLowerCase data userId questions env answers).1.

(** The sentence [generateFeedback] picks by the score, and the one it
    adds for a short answer. *)
Definition feedbackBand (score : Z) (category : jsstring) : jsstring :=
  if 80 <=? score then
    lit "Excellent answer! You provided a comprehensive response to the "
    ++ category
    ++ lit " question. Your explanation demonstrates strong understanding."
  else if 60 <=? score then
    lit "Good response! Your answer shows solid understanding of the topic."
  else if 40 <=? score then
    lit "Your answer covers the basics but could be more detailed."
  else
    lit "Your answer needs improvement. Try including more technical depth and examples.".

Definition detailsAddendum : jsstring :=
  lit "Consider providing more details in your answer.".

(** The four conditions [analyzeAnswer] tests. *)
Definition hasCodeMarkers (answerText : jsstring) : bool :=
  includes answerText (lit "```") || includes answerText (lit "{")
  || includes answerText (lit "[").

Definition hasManyLines (answerText : jsstring) : bool :=
  (3 <? length (splitLines answerText))%nat.

Definition hasTerminology (toLowerCase : jsstring -> jsstring)
    (answerText : jsstring) : bool :=
  includes (toLowerCase answerText) (lit "algorithm")
  || includes (toLowerCase answerText) (lit "complexity")
  || includes (toLowerCase answerText) (lit "optimization").

Definition hasReasoning (answerText : jsstring) : bool :=
  includes answerText (lit "because") || includes answerText (lit "therefore")
  || includes answerText (lit "this means").

(** The body of [analyzeAnswer] as a function of the outcomes of its
    tests: code markers, more than three lines, terminology, reasoning,
    and the difficulty being [easy], [medium], [hard]. *)
Definition analysisOf (code lines terms reasons easy medium hard : bool)
    : list jsstring * list jsstring :=
  let strengths := [] in
  let improvements := [] in
  let '(strengths, improvements) :=
    if code
    then (strengths ++ [lit "Good: Included code examples or pseudo-code"], improvements)
    else if negb easy
    then (strengths, improvements ++ [lit "Consider adding code examples to illustrate concepts"])
    else (strengths, improvements) in
  let '(strengths, improvements) :=
    if lines
    then (strengths ++ [lit "Good: Well-structured and organized answer"], improvements)
    else (strengths, improvements ++ [lit "Try formatting your answer with line breaks for clarity"]) in
  let '(strengths, improvements) :=
    if terms
    then (strengths ++ [lit "Good: Used appropriate technical terminology"], improvements)
    else if medium || hard
    then (strengths, improvements ++ [lit "Use more technical terminology specific to the domain"])
    else (strengths, improvements) in
  let '(strengths, improvements) :=
    if reasons
    then (strengths ++ [lit "Good: Clear explanations and reasoning"], improvements)
    else (strengths, improvements ++ [lit "Explain your reasoning behind key points"]) in
  let strengths :=
    if (length strengths =? 0)%nat
    then strengths ++ [lit "Attempted to answer the question"] else strengths in
  let improvements :=
    if (length improvements =? 0)%nat
    then improvements ++ [lit "Keep practicing with similar questions"] else improvements in
  (strengths, improvements).

(** The number of line feeds of a text. *)
Definition lineFeeds (s : jsstring) : nat :=
  length (filter (fun c => c = 10%N) s).

(** ** Sample inputs, used to run the definitions *)

Module Sample.
Definition question : jsstring := lit "Explain rate limiting".
Definition answer : jsstring := lit "I would separate the ALGORITHM, ok".

Definition fourteenWords : jsstring := lit "a b c d e f g h i j k l m n".
Definition fifteenWords : jsstring := lit "a b c d e f g h i j k l m n o".

Definition data : SubmitAnswerInput.t :=
  {| SubmitAnswerInput.interviewId := lit "interview-1";
     SubmitAnswerInput.questionId := lit "question-1";
     SubmitAnswerInput.answerText := answer;
     SubmitAnswerInput.confidence := Some 4 |}.

Definition answers : gmap jsstring Answer.t :=
  (submitAnswer data (lit "user-1") (lit "answer-1") 1000 ∅).1.

Definition evaluation : AnswerEvaluation :=
  (evaluateAnswer asciiToLowerCase answer question (lit "easy") (lit "DSA")
     (None : option (Z -> unit -> unit))
     {| startReading := 1500; endReading := 2000 |} tt).2.
End Sample.

Module Scenario.
Definition expert : jsstring := lit "expert".

Definition question : Question.t :=
  {| Question.id := lit "question-1";
     Question.text := Sample.question;
     Question.category := lit "DSA";
     Question.difficulty := lit "easy" |}.

Definition questions : list Question.t := [question].

Definition laterEnv : SubmitEnv :=
  {| drawnId := lit "answer-2"; submittedNow := 1200;
     evaluationClock := {| startReading := 1300; endReading := 1800 |};
     evaluatedNow := 1800 |}.

Definition env : SubmitEnv :=
  {| drawnId := lit "answer-1"; submittedNow := 1000;
     evaluationClock := {| startReading := 1500; endReading := 2000 |};
     evaluatedNow := 2000 |}.

(** Forty times a word and a blank: 41 pieces. *)
Definition manyWords : jsstring := concat (replicate 40 (lit "w ")).

Definition otherData : SubmitAnswerInput.t :=
  {| SubmitAnswerInput.interviewId := lit "interview-2";
     SubmitAnswerInput.questionId := lit "question-9";
     SubmitAnswerInput.answerText := lit "I don't know.";
     SubmitAnswerInput.confidence := None |}.

(** Two answers, of two users, to two interviews. *)
Definition ordered : Ordered.entries :=
  (Ordered.saveAnswer (lit "answer-2") 1200 (submitRecord otherData (lit "user-2"))
     (Ordered.saveAnswer (lit "answer-1") 1000
        (submitRecord Sample.data (lit "user-1")) []).1).1.

Definition afterSubmit : gmap jsstring Answer.t :=
  (submitHandler asciiToLowerCase Sample.data (lit "user-1") questions env ∅).1.
End Scenario.

(** ** Facts about the string operations *)

Example splitWhitespace_words :
  splitWhitespace (lit "I don't   know.") = [lit "I"; lit "don't"; lit "know."].
Proof. reflexivity. Qed.

Example splitWhitespace_edges :
  splitWhitespace (lit " a  b ") = [[]; lit "a"; lit "b"; []]
  /\ splitWhitespace [] = [[]]
  /\ splitWhitespace (lit "   ") = [[]; []].
Proof. repeat split. Qed.

Example splitWhitespace_line_feed_and_tab :
  splitWhitespace [97; 10; 9; 98]%N = [[97%N]; [98%N]].
Proof. reflexivity. Qed.

Example trim_edges : trim (lit "  a b  ") = lit "a b" /\ trim (lit "   ") = [].
Proof. split; reflexivity. Qed.

Example includes_inside_word :
  includes (lit "separate") (lit "rate") = true
  /\ includes (lit "separate") (lit "rates") = false
  /\ includes (lit "abc") [] = true.
Proof. repeat split. Qed.

Example asciiToLowerCase_keywords :
  Forall (fun keyword => asciiToLowerCase keyword = keyword) technicalKeywords.
Proof. apply (bool_decide_unpack _). by vm_compute. Qed.

(** The second scenario of the specification: a short answer to a hard
    question gets the baseline and the short-answer sentence. *)
Example evaluate_short_answer :
  let answerText := lit "I don't know." in
  let questionText := lit "Explain time complexity of quicksort" in
  calculateScore asciiToLowerCase answerText questionText (lit "hard") = 50
  /\ generateFeedback answerText questionText 50 (lit "DSA") (lit "hard")
     = lit "Your answer covers the basics but could be more detailed.Consider providing more details in your answer.".
Proof. split; by vm_compute. Qed.

(** Six keywords of the table earn the same 15 points as five. *)
Example technicalAdjustment_six_keywords :
  countTechnicalTerms asciiToLowerCase
    (lit "Cache the QUERY by index in one transaction per thread of the API") = 6
  /\ technicalAdjustment asciiToLowerCase
       (lit "Cache the QUERY by index in one transaction per thread of the API") = 15.
Proof. split; by vm_compute. Qed.

(** The clock shows in the evaluation time only. *)
Example evaluation_time_from_clock :
  ev_evaluationTime Sample.evaluation = 500 /\ ev_score Sample.evaluation = 68.
Proof. split; by vm_compute. Qed.

Lemma startsWith_prefix (sub s : jsstring) :
  startsWith s sub = true <-> exists post, s = sub ++ post.
Proof.
  revert s. induction sub as [|x sub IH]; intros s; simpl.
  - split; [intros _; by exists s | done].
  - destruct s as [|y s].
    + split; [done | intros [post H]; discriminate H].
    + rewrite andb_true_iff, N.eqb_eq, IH. split.
      * intros [-> [post ->]]. by exists post.
      * intros [post H]. injection H as -> ->. eauto.
Qed.

Lemma includes_occursIn (s sub : jsstring) :
  includes s sub = true <-> occursIn sub s.
Proof.
  unfold occursIn. induction s as [|c s IH].
  - simpl. rewrite orb_false_r, startsWith_prefix. split.
    + intros [post H]. by exists [], post.
    + intros [pre [post H]]. symmetry in H.
      apply app_eq_nil in H as [-> H]. by exists post.
  - change (includes (c :: s) sub)
      with (startsWith (c :: s) sub || includes s sub).
    rewrite orb_true_iff, startsWith_prefix, IH. split.
    + intros [[post H] | [pre [post H]]].
      * by exists [], post.
      * exists (c :: pre), post. by rewrite H.
    + intros [[|c' pre] [post H]].
      * left. by exists post.
      * right. injection H as -> H. eauto.
Qed.

Lemma consHead_length (c : N) (pieces : list jsstring) :
  pieces <> [] -> length (consHead c pieces) = length pieces.
Proof. by destruct pieces. Qed.

Lemma splitFrom_nonempty (inRun : bool) (s : jsstring) :
  splitFrom inRun s <> [].
Proof.
  revert inRun. induction s as [|c r IH]; intros inRun; simpl; [done|].
  destruct (isWhitespace c).
  - destruct inRun; [apply IH | done].
  - specialize (IH false). by destruct (splitFrom false r).
Qed.

(** Inside a separator, the white space that follows is skipped. *)
Lemma splitFrom_inRun (s : jsstring) :
  splitFrom true s = splitFrom false (trimStart s).
Proof.
  induction s as [|c r IH]; [done|].
  simpl. destruct (isWhitespace c) eqn:E; [done|].
  simpl. by rewrite E.
Qed.

Lemma trimEnd_nil_split (s : jsstring) :
  trimEnd s = [] -> trimStart s = [] /\ splitFrom true s = [[]].
Proof.
  induction s as [|c r IH]; [done|].
  simpl. destruct (trimEnd r) as [|x r'] eqn:E; [|done].
  destruct (isWhitespace c); [|done]. intros _. by apply IH.
Qed.

Lemma endsWithWhitespace_trimStart (s : jsstring) :
  trimStart s <> [] ->
  endsWithWhitespace (trimStart s) = endsWithWhitespace s.
Proof.
  induction s as [|c r IH]; [done|].
  simpl trimStart. destruct (isWhitespace c) eqn:E; [|done].
  intros H. rewrite (IH H). destruct r; [done|]. reflexivity.
Qed.

Lemma endsWithWhitespace_cons (c c' : N) (r : jsstring) :
  endsWithWhitespace (c :: c' :: r) = endsWithWhitespace (c' :: r).
Proof. reflexivity. Qed.

Lemma trimStart_nil_ends (s : jsstring) :
  s <> [] -> trimStart s = [] -> endsWithWhitespace s = true.
Proof.
  induction s as [|c r IH]; [done|]. intros _.
  simpl trimStart. destruct (isWhitespace c) eqn:E; [|done].
  destruct r as [|c' r]; [done|].
  intros H. rewrite endsWithWhitespace_cons. by apply IH.
Qed.

Lemma splitFrom_cons_ws (inRun : bool) (c : N) (r : jsstring) :
  isWhitespace c = true ->
  splitFrom inRun (c :: r)
  = if inRun then splitFrom true r else [] :: splitFrom true r.
Proof. intros H. simpl. by rewrite H. Qed.

Lemma splitFrom_cons_word (inRun : bool) (c : N) (r : jsstring) :
  isWhitespace c = false ->
  splitFrom inRun (c :: r) = consHead c (splitFrom false r).
Proof. intros H. simpl. by rewrite H. Qed.

(** A piece is added by the white space at the end of the text. *)
Lemma splitFrom_trimEnd (inRun : bool) (s : jsstring) :
  trimEnd s <> [] ->
  length (splitFrom inRun s)
  = (length (splitFrom inRun (trimEnd s))
     + if endsWithWhitespace s then 1 else 0)%nat.
Proof.
  revert inRun. induction s as [|c r IH]; intros inRun; [done|].
  simpl trimEnd. destruct (trimEnd r) as [|x r'] eqn:E.
  - destruct (isWhitespace c) eqn:Ec; [done|]. intros _.
    destruct (trimEnd_nil_split r E) as [Hs Hr].
    rewrite (splitFrom_cons_word inRun c r) by done.
    rewrite (splitFrom_cons_word inRun c []) by done.
    rewrite consHead_length by apply splitFrom_nonempty.
    destruct r as [|c' r]; [by simpl; rewrite Ec|].
    rewrite endsWithWhitespace_cons, (trimStart_nil_ends (c' :: r)) by done.
    assert (isWhitespace c' = true) as Ec'.
    { simpl in Hs. by destruct (isWhitespace c'). }
    rewrite splitFrom_cons_ws in Hr |- * by done. by rewrite Hr.
  - intros _. destruct r as [|c' r]; [done|].
    rewrite endsWithWhitespace_cons.
    destruct (isWhitespace c) eqn:Ec.
    + rewrite (splitFrom_cons_ws inRun c (c' :: r)) by done.
      rewrite (splitFrom_cons_ws inRun c (x :: r')) by done.
      destruct inRun; cbn [length]; rewrite (IH true); done.
    + rewrite (splitFrom_cons_word inRun c (c' :: r)) by done.
      rewrite (splitFrom_cons_word inRun c (x :: r')) by done.
      rewrite !consHead_length by apply splitFrom_nonempty.
      by apply IH.
Qed.

(** A piece is added by the white space at the start of the text. *)
Lemma splitFrom_trimStart (s : jsstring) :
  length (splitFrom false s)
  = ((if startsWithWhitespace s then 1 else 0)
     + length (splitFrom false (trimStart s)))%nat.
Proof.
  destruct s as [|c r]; [done|].
  unfold startsWithWhitespace. simpl trimStart.
  destruct (isWhitespace c) eqn:E; [|done].
  rewrite splitFrom_cons_ws by done. simpl. by rewrite splitFrom_inRun.
Qed.

Lemma trimStart_idem (s : jsstring) : trimStart (trimStart s) = trimStart s.
Proof.
  induction s as [|c r IH]; [done|].
  simpl. destruct (isWhitespace c) eqn:E; [done|]. simpl. by rewrite E.
Qed.

Lemma trim_nil_trimStart (s : jsstring) : trim s = [] -> trimStart s = [].
Proof.
  unfold trim. intros H. apply trimEnd_nil_split in H as [H _].
  by rewrite trimStart_idem in H.
Qed.

(** ** Counting *)

Lemma countWhere_filter {A : Type} (P : A -> Prop) `{!forall x, Decision (P x)}
    (l : list A) :
  countWhere P l (length (filter P l)).
Proof.
  induction l as [|x l IH]; [constructor|].
  rewrite filter_cons. destruct (decide (P x)).
  - by apply countWhere_hit.
  - by apply countWhere_miss.
Qed.

Lemma countWhere_iff {A : Type} (P Q : A -> Prop) (l : list A) (n : nat) :
  (forall x, P x <-> Q x) -> countWhere P l n -> countWhere Q l n.
Proof.
  intros HPQ. induction 1 as [|x l n Hx _ IH|x l n Hx _ IH].
  - constructor.
  - apply countWhere_hit; [by apply HPQ | done].
  - apply countWhere_miss; [by rewrite <- HPQ | done].
Qed.

(** [countWhere] determines the number. *)
Lemma countWhere_unique {A : Type} (P : A -> Prop) (l : list A) (n m : nat) :
  countWhere P l n -> countWhere P l m -> n = m.
Proof.
  intros Hn. revert m.
  induction Hn as [|x l n Hx _ IH|x l n Hx _ IH]; intros m Hm;
    inversion Hm; subst; try done.
  - by f_equal; apply IH.
  - by apply IH.
Qed.

(** The counting loop of [countTechnicalTerms], from any start value. *)
Lemma count_loop (f : jsstring -> bool) (l : list jsstring) (start : Z) :
  fold_left (fun count k => if f k then count + 1 else count) l start
  = start + Z.of_nat (length (filter (fun k => f k = true) l)).
Proof.
  revert start. induction l as [|k l IH]; intros start; simpl; [lia|].
  rewrite IH, filter_cons. destruct (f k) eqn:E.
  - rewrite decide_True by done. simpl. lia.
  - rewrite decide_False by done. lia.
Qed.

Lemma technicalKeywords_NoDup : NoDup technicalKeywords.
Proof. apply (bool_decide_unpack (NoDup technicalKeywords)). by vm_compute. Qed.

Section EvaluatorFacts.

Variable toLowerCase : jsstring -> jsstring.

Lemma countTechnicalTerms_count (text : jsstring) :
  exists n,
    countWhere (fun keyword => occursIn keyword (toLowerCase text))
               technicalKeywords n
    /\ countTechnicalTerms toLowerCase text = Z.of_nat n.
Proof.
  exists (length (filter (fun k => includes (toLowerCase text) k = true)
                         technicalKeywords)).
  split.
  - eapply countWhere_iff; [|apply countWhere_filter].
    intros k. apply includes_occursIn.
  - unfold countTechnicalTerms. by rewrite count_loop.
Qed.

Lemma technicalAdjustment_bounds (text : jsstring) :
  0 <= technicalAdjustment toLowerCase text <= 15.
Proof.
  unfold technicalAdjustment, countTechnicalTerms. rewrite count_loop. lia.
Qed.

Lemma relevantTerms_count (answerText questionText : jsstring) :
  countWhere (fun term => (3 < length term)%nat
                /\ occursIn (toLowerCase term) (toLowerCase answerText))
             (splitWhitespace questionText)
             (length (relevantTerms toLowerCase answerText questionText)).
Proof.
  unfold relevantTerms, questionTerms. rewrite list_filter_filter.
  eapply countWhere_iff; [|apply countWhere_filter].
  intros t. simpl. rewrite includes_occursIn. tauto.
Qed.

Lemma relevanceAdjustment_bounds (answerText questionText : jsstring) :
  0 <= relevanceAdjustment toLowerCase answerText questionText <= 15.
Proof. unfold relevanceAdjustment. lia. Qed.

Lemma lengthAdjustment_bounds (difficulty : jsstring) (words : Z) :
  0 <= lengthAdjustment difficulty words <= 20.
Proof. unfold lengthAdjustment. repeat case_match; lia. Qed.

Lemma lengthAdjustment_mono (difficulty : jsstring) (w1 w2 : Z) :
  w1 <= w2 -> lengthAdjustment difficulty w1 <= lengthAdjustment difficulty w2.
Proof.
  intros H. unfold lengthAdjustment.
  destruct (Z.leb_spec (highThreshold difficulty) w1),
           (Z.leb_spec (highThreshold difficulty) w2),
           (Z.leb_spec (midThreshold difficulty) w1),
           (Z.leb_spec (midThreshold difficulty) w2); lia.
Qed.

Lemma structureAdjustment_bounds (text : jsstring) :
  0 <= structureAdjustment text <= 10.
Proof. unfold structureAdjustment. case_match; lia. Qed.

(** The chain of updates of [score] in [calculateScore] adds up the four
    adjustments. *)
Lemma calculateScore_sum (answerText questionText difficulty : jsstring) :
  calculateScore toLowerCase answerText questionText difficulty
  = clamp (50 + adjustments toLowerCase answerText questionText difficulty) 0 100.
Proof.
  unfold calculateScore, adjustments, clamp, lengthAdjustment, highThreshold,
    midThreshold, technicalAdjustment, structureAdjustment, relevanceAdjustment.
  set (w := wordCount answerText).
  set (t := countTechnicalTerms toLowerCase answerText).
  set (n := Z.of_nat (length (relevantTerms toLowerCase answerText questionText))).
  assert (0 <= n) by (unfold n; lia).
  destruct (hasStructure answerText);
    destruct (Z.ltb_spec 0 n);
    repeat case_bool_decide; repeat case_match; lia.
Qed.

Lemma evaluateAnswer_score {Obs : Type}
    (answerText questionText difficulty category : jsstring)
    (onProgress : option (Z -> Obs -> Obs)) (clock : Clock) (obs : Obs) :
  ev_score (evaluateAnswer toLowerCase answerText questionText difficulty
              category onProgress clock obs).2
  = calculateScore toLowerCase answerText questionText difficulty.
Proof.
  unfold evaluateAnswer. by destruct (analyzeAnswer toLowerCase answerText difficulty).
Qed.

Lemma evaluateAnswer_feedback {Obs : Type}
    (answerText questionText difficulty category : jsstring)
    (onProgress : option (Z -> Obs -> Obs)) (clock : Clock) (obs : Obs) :
  ev_feedback (evaluateAnswer toLowerCase answerText questionText difficulty
                 category onProgress clock obs).2
  = generateFeedback answerText questionText
      (calculateScore toLowerCase answerText questionText difficulty)
      category difficulty.
Proof.
  unfold evaluateAnswer. by destruct (analyzeAnswer toLowerCase answerText difficulty).
Qed.

Lemma adjustments_bounds (answerText questionText difficulty : jsstring) :
  0 <= adjustments toLowerCase answerText questionText difficulty <= 60.
Proof.
  unfold adjustments.
  pose proof (lengthAdjustment_bounds difficulty (wordCount answerText)).
  pose proof (technicalAdjustment_bounds answerText).
  pose proof (structureAdjustment_bounds answerText).
  pose proof (relevanceAdjustment_bounds answerText questionText).
  lia.
Qed.

(** ** The claims about the evaluator *)

(** C1.  For every answer text, question text, difficulty and category,
    the score that [evaluateAnswer] reports is the one [calculateScore]
    computes, it lies between 0 and 100, and it is the baseline 50 plus
    the four adjustments, clamped to that range. *)
Theorem score_in_range {Obs : Type}
    (answerText questionText difficulty category : jsstring)
    (onProgress : option (Z -> Obs -> Obs)) (clock : Clock) (obs : Obs) :
  let score := calculateScore toLowerCase answerText questionText difficulty in
  ev_score (evaluateAnswer toLowerCase answerText questionText difficulty
              category onProgress clock obs).2 = score
  /\ 0 <= score <= 100
  /\ score = clamp (50 + adjustments toLowerCase answerText questionText difficulty)
                   0 100.
Proof.
  cbv zeta. rewrite evaluateAnswer_score, calculateScore_sum.
  unfold clamp. repeat split; lia.
Qed.

(** C3.  Two answers to the same question at the same difficulty that
    match the same number of technical keywords, agree on the presence of
    a structure character and match the same number of question tokens:
    when both word counts are at most the high threshold of the
    difficulty and the first is at most the second, the first score is at
    most the second. *)
Theorem score_monotone_in_wordCount
    (questionText difficulty answer1 answer2 : jsstring) :
  countTechnicalTerms toLowerCase answer1 = countTechnicalTerms toLowerCase answer2 ->
  hasStructure answer1 = hasStructure answer2 ->
  length (relevantTerms toLowerCase answer1 questionText)
  = length (relevantTerms toLowerCase answer2 questionText) ->
  wordCount answer1 <= highThreshold difficulty ->
  wordCount answer2 <= highThreshold difficulty ->
  wordCount answer1 <= wordCount answer2 ->
  calculateScore toLowerCase answer1 questionText difficulty
  <= calculateScore toLowerCase answer2 questionText difficulty.
Proof.
  intros Ht Hs Hr _ _ Hw. rewrite !calculateScore_sum.
  unfold adjustments, technicalAdjustment, structureAdjustment,
    relevanceAdjustment, clamp.
  rewrite Ht, Hs, Hr.
  pose proof (lengthAdjustment_mono difficulty _ _ Hw). lia.
Qed.

(** C4.  The table has 20 keywords, no two alike.  The number of
    keywords that occur in the lower-cased answer is what
    [countTechnicalTerms] returns; the technical adjustment is 3 points
    for each of them, capped at 15, and this is the term that enters the
    score. *)
Theorem technical_adjustment_capped (answerText : jsstring) :
  NoDup technicalKeywords /\ length technicalKeywords = 20%nat
  /\ exists n,
       countWhere (fun keyword => occursIn keyword (toLowerCase answerText))
                  technicalKeywords n
       /\ countTechnicalTerms toLowerCase answerText = Z.of_nat n
       /\ technicalAdjustment toLowerCase answerText = Z.min (3 * Z.of_nat n) 15
       /\ 0 <= technicalAdjustment toLowerCase answerText <= 15
       /\ forall questionText difficulty,
            calculateScore toLowerCase answerText questionText difficulty
            = clamp (50 + lengthAdjustment difficulty (wordCount answerText)
                        + Z.min (3 * Z.of_nat n) 15
                        + structureAdjustment answerText
                        + relevanceAdjustment toLowerCase answerText questionText)
                    0 100.
Proof.
  split; [apply technicalKeywords_NoDup|]. split; [reflexivity|].
  destruct (countTechnicalTerms_count answerText) as [n [Hn Hc]].
  assert (technicalAdjustment toLowerCase answerText = Z.min (3 * Z.of_nat n) 15)
    as Ha by (unfold technicalAdjustment; rewrite Hc; lia).
  exists n. repeat split; try done; try lia.
  intros q d. rewrite calculateScore_sum. unfold adjustments.
  rewrite Ha. f_equal. lia.
Qed.

(** C5.  The question is split on white space; the number of its tokens
    of more than 3 code units whose lower-cased form occurs anywhere in
    the lower-cased answer is the number of relevant terms; the relevance
    adjustment is 5 points for each, capped at 15, and this is the term
    that enters the score.  A token counts wherever it occurs, whatever
    text comes before and after it. *)
Theorem relevance_adjustment_capped (answerText questionText : jsstring) :
  let n := length (relevantTerms toLowerCase answerText questionText) in
  countWhere (fun term => (3 < length term)%nat
                /\ occursIn (toLowerCase term) (toLowerCase answerText))
             (splitWhitespace questionText) n
  /\ relevanceAdjustment toLowerCase answerText questionText
     = Z.min (5 * Z.of_nat n) 15
  /\ 0 <= relevanceAdjustment toLowerCase answerText questionText <= 15
  /\ (forall term before after,
        term ∈ splitWhitespace questionText ->
        (3 < length term)%nat ->
        toLowerCase answerText = before ++ toLowerCase term ++ after ->
        term ∈ relevantTerms toLowerCase answerText questionText
        /\ 5 <= relevanceAdjustment toLowerCase answerText questionText)
  /\ forall difficulty,
       calculateScore toLowerCase answerText questionText difficulty
       = clamp (50 + lengthAdjustment difficulty (wordCount answerText)
                   + technicalAdjustment toLowerCase answerText
                   + structureAdjustment answerText
                   + Z.min (5 * Z.of_nat n) 15)
               0 100.
Proof.
  cbv zeta. split; [apply relevantTerms_count|].
  split; [unfold relevanceAdjustment; lia|].
  split; [apply relevanceAdjustment_bounds|]. split.
  - intros term before after Hin Hlen Hocc.
    assert (term ∈ relevantTerms toLowerCase answerText questionText) as Hrel.
    { unfold relevantTerms, questionTerms.
      apply list_elem_of_filter. split.
      - apply includes_occursIn. by exists before, after.
      - by apply list_elem_of_filter. }
    split; [done|]. unfold relevanceAdjustment.
    destruct (relevantTerms toLowerCase answerText questionText);
      [by apply not_elem_of_nil in Hrel | simpl length; lia].
  - intros d. rewrite calculateScore_sum.
    unfold adjustments, relevanceAdjustment. f_equal. lia.
Qed.

(** C9.  Two runs of [evaluateAnswer] on the same answer, question,
    difficulty and category report the same score and the same feedback,
    whatever the clock shows and whoever observes the progress; both are
    the values of [calculateScore] and [generateFeedback]. *)
Theorem evaluation_deterministic {Obs1 Obs2 : Type}
    (answerText questionText difficulty category : jsstring)
    (onProgress1 : option (Z -> Obs1 -> Obs1)) (clock1 : Clock) (obs1 : Obs1)
    (onProgress2 : option (Z -> Obs2 -> Obs2)) (clock2 : Clock) (obs2 : Obs2) :
  let run1 := (evaluateAnswer toLowerCase answerText questionText difficulty
                 category onProgress1 clock1 obs1).2 in
  let run2 := (evaluateAnswer toLowerCase answerText questionText difficulty
                 category onProgress2 clock2 obs2).2 in
  ev_score run1 = ev_score run2
  /\ ev_feedback run1 = ev_feedback run2
  /\ ev_score run1 = calculateScore toLowerCase answerText questionText difficulty
  /\ ev_feedback run1
     = generateFeedback answerText questionText
         (calculateScore toLowerCase answerText questionText difficulty)
         category difficulty.
Proof.
  cbv zeta. by rewrite !evaluateAnswer_score, !evaluateAnswer_feedback.
Qed.

(** C10.  Every adjustment is at least 0, so the score is at least the
    baseline 50: the lower bound of the clamp never binds and the score
    is the smaller of 50 plus the adjustments and 100. *)
Theorem score_at_least_baseline (answerText questionText difficulty : jsstring) :
  let score := calculateScore toLowerCase answerText questionText difficulty in
  0 <= lengthAdjustment difficulty (wordCount answerText)
  /\ 0 <= technicalAdjustment toLowerCase answerText
  /\ 0 <= structureAdjustment answerText
  /\ 0 <= relevanceAdjustment toLowerCase answerText questionText
  /\ 50 <= score <= 100
  /\ score = Z.min (50 + adjustments toLowerCase answerText questionText difficulty) 100.
Proof.
  cbv zeta. rewrite calculateScore_sum. unfold clamp.
  pose proof (adjustments_bounds answerText questionText difficulty).
  pose proof (lengthAdjustment_bounds difficulty (wordCount answerText)).
  pose proof (technicalAdjustment_bounds answerText).
  pose proof (structureAdjustment_bounds answerText).
  pose proof (relevanceAdjustment_bounds answerText questionText).
  repeat split; lia.
Qed.

End EvaluatorFacts.

Lemma score_monotone_in_wordCount_witness :
  calculateScore asciiToLowerCase Sample.fourteenWords Sample.question (lit "easy") = 50
  /\ calculateScore asciiToLowerCase Sample.fifteenWords Sample.question (lit "easy") = 60
  /\ calculateScore asciiToLowerCase Sample.fourteenWords Sample.question (lit "easy")
     <= calculateScore asciiToLowerCase Sample.fifteenWords Sample.question (lit "easy").
Proof.
  split; [by vm_compute|]. split; [by vm_compute|].
  apply (score_monotone_in_wordCount asciiToLowerCase);
    vm_compute; congruence.
Defined.

Lemma relevance_adjustment_capped_witness :
  lit "rate" ∈ relevantTerms asciiToLowerCase Sample.answer Sample.question
  /\ 5 <= relevanceAdjustment asciiToLowerCase Sample.answer Sample.question.
Proof.
  apply (proj1 (proj2 (proj2 (proj2
           (relevance_adjustment_capped asciiToLowerCase
              Sample.answer Sample.question))))
           (lit "rate") (lit "i would sepa") (lit " the algorithm, ok")).
  - apply (bool_decide_unpack _). by vm_compute.
  - vm_compute. lia.
  - by vm_compute.
Defined.

(** ** The word count *)

(** White space around a word adds pieces: the text is counted as it
    is, and its trimmed form has fewer pieces. *)
Lemma wordCount_not_trimmed :
  wordCount (lit " hello ") = 3
  /\ wordCount (trim (lit " hello ")) = 1
  /\ wordCount (lit " hello ") <> wordCount (trim (lit " hello ")).
Proof. repeat split; by vm_compute. Qed.

(** C2, as the code has it.  The word count is the number of pieces of
    the answer text itself, split on runs of white space; the text is
    not trimmed.  The empty text has one piece, a text of white space
    only has two, and any other text has the pieces of its trimmed form,
    one more when it starts with white space and one more when it ends
    with white space. *)
Theorem wordCount_untrimmed (text : jsstring) :
  wordCount text
  = if bool_decide (text = []) then 1
    else if bool_decide (trim text = []) then 2
    else wordCount (trim text)
         + (if startsWithWhitespace text then 1 else 0)
         + (if endsWithWhitespace text then 1 else 0).
Proof.
  unfold wordCount, splitWhitespace.
  case_bool_decide as Htext; [by subst|].
  rewrite splitFrom_trimStart.
  case_bool_decide as Htrim.
  - apply trim_nil_trimStart in Htrim as Hstart. rewrite Hstart.
    destruct text as [|c r]; [done|].
    simpl in Hstart |- *. by destruct (isWhitespace c).
  - unfold trim in *.
    assert (trimStart text <> []) as Hne by (by intros E; rewrite E in Htrim).
    rewrite (splitFrom_trimEnd false (trimStart text)) by done.
    rewrite endsWithWhitespace_trimStart by done.
    destruct (startsWithWhitespace text), (endsWithWhitespace text); lia.
Qed.

(** ** The claims about the store *)

(** C6.  When the id is in the store, [updateAnswerEvaluation] returns a
    record and stores it under that id: its feedback and score are those
    of the evaluation, its status is [completed], its evaluation instant
    is the current one, so all three are present; every other field is
    that of the record found, and the other ids keep their records. *)
Theorem updateAnswerEvaluation_completes
    (answerId : jsstring) (evaluation : AnswerEvaluation) (now : Z)
    (answers : gmap jsstring Answer.t) (answer : Answer.t) :
  answers !! answerId = Some answer ->
  exists updated,
    updateAnswerEvaluation answerId evaluation now answers
    = (<[answerId := updated]> answers, Returned updated)
    /\ getAnswer answerId (updateAnswerEvaluation answerId evaluation now answers).1
       = Some updated
    /\ Answer.feedback updated = Some (ev_feedback evaluation)
    /\ Answer.score updated = Some (ev_score evaluation)
    /\ Answer.evaluationStatus updated = Some (lit "completed")
    /\ Answer.evaluatedAt updated = Some now
    /\ Answer.id updated = Answer.id answer
    /\ Answer.interviewId updated = Answer.interviewId answer
    /\ Answer.questionId updated = Answer.questionId answer
    /\ Answer.userId updated = Answer.userId answer
    /\ Answer.answerText updated = Answer.answerText answer
    /\ Answer.confidence updated = Answer.confidence answer
    /\ Answer.submittedAt updated = Answer.submittedAt answer
    /\ forall other, other <> answerId ->
         getAnswer other (updateAnswerEvaluation answerId evaluation now answers).1
         = getAnswer other answers.
Proof.
  intros Hfound. unfold updateAnswerEvaluation, getAnswer. rewrite Hfound.
  eexists. split; [reflexivity|]. simpl.
  split; [apply lookup_insert_eq|].
  repeat (split; [reflexivity|]).
  intros other Hother. by apply lookup_insert_ne.
Qed.

(** C7.  When the id is not in the store, [updateAnswerEvaluation] throws
    the not-found error and the store is the one it was given: the id
    still has no record and every id is looked up as before. *)
Theorem updateAnswerEvaluation_unknown
    (answerId : jsstring) (evaluation : AnswerEvaluation) (now : Z)
    (answers : gmap jsstring Answer.t) :
  answers !! answerId = None ->
  updateAnswerEvaluation answerId evaluation now answers
  = (answers, Thrown (lit "Answer " ++ answerId ++ lit " not found"))
  /\ getAnswer answerId (updateAnswerEvaluation answerId evaluation now answers).1
     = None
  /\ forall other,
       getAnswer other (updateAnswerEvaluation answerId evaluation now answers).1
       = getAnswer other answers.
Proof.
  intros Hmissing. unfold updateAnswerEvaluation, getAnswer.
  rewrite Hmissing. simpl. done.
Qed.

(** C8.  The record the submission route creates: its status is
    [pending]; it has no score, no feedback and no evaluation instant;
    its id is the one drawn by [randomUUID], its submission instant the
    current one, and its other fields those of the request and of the
    user; it is the record returned and the one stored under its id; the
    other ids keep their records, and when the drawn id was not in use
    the store has one record more. *)
Theorem submitted_answer_pending
    (data : SubmitAnswerInput.t) (userId uuid : jsstring) (now : Z)
    (answers : gmap jsstring Answer.t) :
  let created := submitAnswer data userId uuid now answers in
  let record := created.2 in
  Answer.evaluationStatus record = Some (lit "pending")
  /\ Answer.score record = None
  /\ Answer.feedback record = None
  /\ Answer.evaluatedAt record = None
  /\ Answer.id record = uuid
  /\ Answer.submittedAt record = Some now
  /\ Answer.interviewId record = SubmitAnswerInput.interviewId data
  /\ Answer.questionId record = SubmitAnswerInput.questionId data
  /\ Answer.userId record = userId
  /\ Answer.answerText record = SubmitAnswerInput.answerText data
  /\ Answer.confidence record = SubmitAnswerInput.confidence data
  /\ getAnswer uuid created.1 = Some record
  /\ (forall other, other <> uuid ->
        getAnswer other created.1 = getAnswer other answers)
  /\ (answers !! uuid = None ->
        size created.1 = S (size answers)
        /\ dom created.1 = {[uuid]} ∪ dom answers).
Proof.
  cbv zeta. unfold submitAnswer, saveAnswer, getAnswer. simpl.
  repeat (split; [reflexivity|]).
  split; [apply lookup_insert_eq|].
  split; [intros other Hother; by apply lookup_insert_ne|].
  intros Hfresh. split; [by apply map_size_insert_None | apply dom_insert_L].
Qed.

Lemma updateAnswerEvaluation_completes_witness :
  exists updated,
    updateAnswerEvaluation (lit "answer-1") Sample.evaluation 2000 Sample.answers
    = (<[lit "answer-1" := updated]> Sample.answers, Returned updated)
    /\ Answer.score updated = Some 68
    /\ Answer.evaluationStatus updated = Some (lit "completed")
    /\ Answer.evaluatedAt updated = Some 2000
    /\ Answer.submittedAt updated = Some 1000.
Proof.
  destruct (updateAnswerEvaluation_completes (lit "answer-1") Sample.evaluation
              2000 Sample.answers (submitAnswer Sample.data (lit "user-1")
                                     (lit "answer-1") 1000 ∅).2)
    as (updated & Hrun & _ & _ & Hscore & Hstatus & Hat & _ & _ & _ & _ & _ & _ & Hsub & _).
  - apply lookup_insert_eq.
  - exists updated. by repeat split.
Defined.

Lemma updateAnswerEvaluation_unknown_witness :
  updateAnswerEvaluation (lit "answer-2") Sample.evaluation 2000 Sample.answers
  = (Sample.answers, Thrown (lit "Answer answer-2 not found")).
Proof.
  apply (updateAnswerEvaluation_unknown (lit "answer-2") Sample.evaluation 2000
           Sample.answers).
  by vm_compute.
Defined.

Lemma submitted_answer_pending_witness :
  Answer.evaluationStatus
    (submitAnswer Sample.data (lit "user-1") (lit "answer-1") 1000 ∅).2
  = Some (lit "pending")
  /\ size Sample.answers = 1%nat.
Proof.
  destruct (submitted_answer_pending Sample.data (lit "user-1")
              (lit "answer-1") 1000 ∅)
    as (Hstatus & _ & _ & _ & _ & _ & _ & _ & _ & _ & _ & _ & _ & Hfresh).
  split; [exact Hstatus|].
  destruct (Hfresh (lookup_empty _)) as [Hsize _].
  rewrite map_size_empty in Hsize. exact Hsize.
Defined.

(** ** More about the evaluator *)

Lemma splitLines_nonempty (s : jsstring) : splitLines s <> [].
Proof.
  induction s as [|c r IH]; simpl; [done|].
  destruct (c =? 10)%N; [done|]. by destruct (splitLines r).
Qed.

Lemma splitLines_length (s : jsstring) :
  length (splitLines s) = S (lineFeeds s).
Proof.
  unfold lineFeeds. induction s as [|c r IH]; [done|].
  simpl splitLines. rewrite filter_cons.
  destruct (N.eqb_spec c 10) as [->|Hc].
  - rewrite decide_True by done. simpl. by rewrite IH.
  - rewrite decide_False by done.
    rewrite consHead_length by apply splitLines_nonempty. done.
Qed.

Lemma generateFeedback_band (answerText questionText : jsstring) (score : Z)
    (category difficulty : jsstring) :
  generateFeedback answerText questionText score category difficulty
  = feedbackBand score category
    ++ if (wordCount answerText <? 20)
          && negb (bool_decide (difficulty = lit "easy"))
       then detailsAddendum else [].
Proof.
  unfold generateFeedback, feedbackBand, detailsAddendum.
  destruct ((wordCount answerText <? 20)
            && negb (bool_decide (difficulty = lit "easy")));
    [done | by rewrite app_nil_r].
Qed.

Ltac difficulty_cases d :=
  destruct (decide (d = lit "easy")) as [->|?];
  [|destruct (decide (d = lit "medium")) as [->|?];
    [|destruct (decide (d = lit "hard")) as [->|?]]];
  repeat match goal with
         | H : ?x <> ?y |- context [bool_decide (?x = ?y)] =>
             rewrite (bool_decide_eq_false_2 (x = y) H)
         end.

(** Settles, by running the test, whether a given text is in a given
    list of texts. *)
Ltac decide_members :=
  repeat match goal with
         | |- context [?x ∈ ?l] =>
             lazymatch goal with
             | _ : x ∈ l |- _ => fail
             | _ : ~ x ∈ l |- _ => fail
             | _ => idtac
             end;
             first [ assert (x ∈ l)
                       by (apply (bool_decide_unpack _); vm_compute; exact I)
                   | assert (~ x ∈ l)
                       by (apply (bool_decide_unpack _); vm_compute; exact I) ]
         end.

(** Settles a statement without variables by running its test. *)
Ltac decide_closed := apply (bool_decide_unpack _); vm_compute; exact I.

Section EvaluatorMore.

Variable toLowerCase : jsstring -> jsstring.

Lemma calculateScore_bounds (answerText questionText difficulty : jsstring) :
  50 <= calculateScore toLowerCase answerText questionText difficulty <= 100.
Proof.
  rewrite calculateScore_sum. unfold clamp.
  pose proof (adjustments_bounds toLowerCase answerText questionText difficulty).
  lia.
Qed.

(** A difficulty that is neither [easy] nor [medium] is scored with the
    thresholds of [hard], whatever it is. *)
Theorem other_difficulty_scored_as_hard
    (answerText questionText difficulty : jsstring) :
  difficulty <> lit "easy" -> difficulty <> lit "medium" ->
  calculateScore toLowerCase answerText questionText difficulty
  = calculateScore toLowerCase answerText questionText (lit "hard").
Proof.
  intros Heasy Hmedium. rewrite !calculateScore_sum.
  unfold adjustments, lengthAdjustment, highThreshold, midThreshold.
  by rewrite !(bool_decide_eq_false_2 _ Heasy), !(bool_decide_eq_false_2 _ Hmedium).
Qed.

(** The same answer to the same question never scores less at an easier
    difficulty: [easy] gives the highest score and [hard] the lowest. *)
Theorem score_ordered_by_difficulty
    (answerText questionText difficulty : jsstring) :
  calculateScore toLowerCase answerText questionText (lit "hard")
  <= calculateScore toLowerCase answerText questionText (lit "medium")
  /\ calculateScore toLowerCase answerText questionText (lit "medium")
     <= calculateScore toLowerCase answerText questionText (lit "easy")
  /\ calculateScore toLowerCase answerText questionText (lit "hard")
     <= calculateScore toLowerCase answerText questionText difficulty
     <= calculateScore toLowerCase answerText questionText (lit "easy").
Proof.
  rewrite !calculateScore_sum.
  unfold adjustments, clamp, lengthAdjustment, highThreshold, midThreshold.
  set (w := wordCount answerText).
  difficulty_cases difficulty; simpl bool_decide; cbv iota;
    destruct (Z.leb_spec 30 w), (Z.leb_spec 15 w), (Z.leb_spec 60 w),
      (Z.leb_spec 40 w), (Z.leb_spec 100 w), (Z.leb_spec 70 w); lia.
Qed.

Lemma analyzeAnswer_tests (answerText difficulty : jsstring) :
  analyzeAnswer toLowerCase answerText difficulty
  = analysisOf (hasCodeMarkers answerText) (hasManyLines answerText)
      (hasTerminology toLowerCase answerText) (hasReasoning answerText)
      (bool_decide (difficulty = lit "easy"))
      (bool_decide (difficulty = lit "medium"))
      (bool_decide (difficulty = lit "hard")).
Proof. reflexivity. Qed.

(** The feedback [evaluateAnswer] reports is chosen among three
    sentences, by the score: the sentence for a score under 40 is never
    reported, since no score is under 50. *)
Theorem reported_feedback_bands {Obs : Type}
    (answerText questionText difficulty category : jsstring)
    (onProgress : option (Z -> Obs -> Obs)) (clock : Clock) (obs : Obs) :
  let evaluation :=
    (evaluateAnswer toLowerCase answerText questionText difficulty category
       onProgress clock obs).2 in
  let score := ev_score evaluation in
  ev_feedback evaluation
  = (if 80 <=? score then
       lit "Excellent answer! You provided a comprehensive response to the "
       ++ category
       ++ lit " question. Your explanation demonstrates strong understanding."
     else if 60 <=? score then
       lit "Good response! Your answer shows solid understanding of the topic."
     else
       lit "Your answer covers the basics but could be more detailed.")
    ++ (if (wordCount answerText <? 20)
           && negb (bool_decide (difficulty = lit "easy"))
        then detailsAddendum else [])
  /\ startsWith (ev_feedback evaluation) (lit "Your answer needs improvement")
     = false.
Proof.
  cbv zeta. rewrite evaluateAnswer_feedback, evaluateAnswer_score.
  pose proof (calculateScore_bounds answerText questionText difficulty) as Hs.
  set (score := calculateScore toLowerCase answerText questionText difficulty) in *.
  rewrite generateFeedback_band. unfold feedbackBand.
  destruct (Z.leb_spec 80 score); [by split|].
  destruct (Z.leb_spec 60 score); [by split|].
  destruct (Z.leb_spec 40 score); [by split | lia].
Qed.

(** An answer long enough to earn a length bonus is never told to
    provide more details. *)
Theorem length_bonus_excludes_addendum
    (answerText questionText : jsstring) (score : Z)
    (category difficulty : jsstring) :
  0 < lengthAdjustment difficulty (wordCount answerText) ->
  generateFeedback answerText questionText score category difficulty
  = feedbackBand score category.
Proof.
  intros Hbonus. rewrite generateFeedback_band.
  unfold lengthAdjustment, highThreshold, midThreshold in Hbonus.
  set (w := wordCount answerText) in *.
  destruct (decide (difficulty = lit "easy")) as [->|Heasy].
  - simpl. by rewrite andb_false_r, app_nil_r.
  - assert (20 <= w) as Hw.
    { rewrite (bool_decide_eq_false_2 _ Heasy) in Hbonus.
      destruct (bool_decide (difficulty = lit "medium")).
      - destruct (Z.leb_spec 60 w), (Z.leb_spec 40 w); lia.
      - destruct (Z.leb_spec 100 w), (Z.leb_spec 70 w); lia. }
    destruct (Z.ltb_spec w 20); [lia|]. by rewrite app_nil_r.
Qed.

(** [analyzeAnswer] never returns an empty list, and neither list has
    more than four entries. *)
Theorem analyzeAnswer_lists_bounded (answerText difficulty : jsstring) :
  (1 <= length (analyzeAnswer toLowerCase answerText difficulty).1 <= 4)%nat
  /\ (1 <= length (analyzeAnswer toLowerCase answerText difficulty).2 <= 4)%nat.
Proof.
  rewrite analyzeAnswer_tests.
  destruct (hasCodeMarkers answerText), (hasManyLines answerText),
    (hasTerminology toLowerCase answerText), (hasReasoning answerText),
    (bool_decide (difficulty = lit "easy")),
    (bool_decide (difficulty = lit "medium")),
    (bool_decide (difficulty = lit "hard")); decide_closed.
Qed.

(** Each of the four strengths is listed exactly when its test passes,
    and the default strength exactly when none passes; it is then the
    only one. *)
Theorem strengths_follow_tests (answerText difficulty : jsstring) :
  let strengths := (analyzeAnswer toLowerCase answerText difficulty).1 in
  (lit "Good: Included code examples or pseudo-code" ∈ strengths
   <-> hasCodeMarkers answerText = true)
  /\ (lit "Good: Well-structured and organized answer" ∈ strengths
      <-> hasManyLines answerText = true)
  /\ (lit "Good: Used appropriate technical terminology" ∈ strengths
      <-> hasTerminology toLowerCase answerText = true)
  /\ (lit "Good: Clear explanations and reasoning" ∈ strengths
      <-> hasReasoning answerText = true)
  /\ (lit "Attempted to answer the question" ∈ strengths
      <-> hasCodeMarkers answerText = false /\ hasManyLines answerText = false
          /\ hasTerminology toLowerCase answerText = false
          /\ hasReasoning answerText = false)
  /\ (lit "Attempted to answer the question" ∈ strengths
      -> strengths = [lit "Attempted to answer the question"]).
Proof.
  cbv zeta. rewrite analyzeAnswer_tests.
  destruct (hasCodeMarkers answerText), (hasManyLines answerText),
    (hasTerminology toLowerCase answerText), (hasReasoning answerText),
    (bool_decide (difficulty = lit "easy")),
    (bool_decide (difficulty = lit "medium")),
    (bool_decide (difficulty = lit "hard")); decide_closed.
Qed.

(** Each of the four improvements is listed exactly when its test fails
    and the difficulty asks for it: code examples are asked for at every
    difficulty but [easy], terminology at [medium] and [hard] only, line
    breaks and reasoning always.  The default improvement is listed
    exactly when none of the four is. *)
Theorem improvements_follow_tests (answerText difficulty : jsstring) :
  let improvements := (analyzeAnswer toLowerCase answerText difficulty).2 in
  (lit "Consider adding code examples to illustrate concepts" ∈ improvements
   <-> hasCodeMarkers answerText = false /\ difficulty <> lit "easy")
  /\ (lit "Try formatting your answer with line breaks for clarity" ∈ improvements
      <-> hasManyLines answerText = false)
  /\ (lit "Use more technical terminology specific to the domain" ∈ improvements
      <-> hasTerminology toLowerCase answerText = false
          /\ (difficulty = lit "medium" \/ difficulty = lit "hard"))
  /\ (lit "Explain your reasoning behind key points" ∈ improvements
      <-> hasReasoning answerText = false)
  /\ (lit "Keep practicing with similar questions" ∈ improvements
      <-> hasManyLines answerText = true /\ hasReasoning answerText = true
          /\ (hasCodeMarkers answerText = true \/ difficulty = lit "easy")
          /\ (hasTerminology toLowerCase answerText = true
              \/ (difficulty <> lit "medium" /\ difficulty <> lit "hard"))).
Proof.
  cbv zeta. rewrite analyzeAnswer_tests.
  difficulty_cases difficulty;
    destruct (hasCodeMarkers answerText), (hasManyLines answerText),
      (hasTerminology toLowerCase answerText), (hasReasoning answerText);
    first [ decide_closed
          | decide_members; repeat split; intros;
            try tauto; intuition congruence ].
Qed.

(** An answer is praised as well structured exactly when it has at least
    three line feeds, and is told to use line breaks otherwise. *)
Theorem well_structured_needs_three_line_feeds (answerText difficulty : jsstring) :
  (lit "Good: Well-structured and organized answer"
     ∈ (analyzeAnswer toLowerCase answerText difficulty).1
   <-> (3 <= lineFeeds answerText)%nat)
  /\ (lit "Try formatting your answer with line breaks for clarity"
        ∈ (analyzeAnswer toLowerCase answerText difficulty).2
      <-> (lineFeeds answerText < 3)%nat).
Proof.
  pose proof (splitLines_length answerText) as Hlen.
  rewrite analyzeAnswer_tests. unfold hasManyLines.
  destruct (Nat.ltb_spec 3 (length (splitLines answerText))) as [Hl|Hl];
    destruct (hasCodeMarkers answerText),
      (hasTerminology toLowerCase answerText), (hasReasoning answerText),
      (bool_decide (difficulty = lit "easy")),
      (bool_decide (difficulty = lit "medium")),
      (bool_decide (difficulty = lit "hard"));
    decide_members; repeat split; intros; try tauto; lia.
Qed.

End EvaluatorMore.

Lemma other_difficulty_scored_as_hard_witness :
  calculateScore asciiToLowerCase Scenario.manyWords Sample.question Scenario.expert
  = calculateScore asciiToLowerCase Scenario.manyWords Sample.question (lit "hard").
Proof.
  apply (other_difficulty_scored_as_hard asciiToLowerCase);
    vm_compute; congruence.
Defined.

Lemma length_bonus_excludes_addendum_witness :
  generateFeedback Scenario.manyWords Sample.question 60 (lit "DSA") (lit "medium")
  = feedbackBand 60 (lit "DSA").
Proof.
  apply (length_bonus_excludes_addendum Scenario.manyWords Sample.question 60
           (lit "DSA") (lit "medium")).
  by vm_compute.
Defined.


(** ** More about the store *)

Lemma updateAnswerEvaluation_found
    (answerId : jsstring) (evaluation : AnswerEvaluation) (now : Z)
    (answers : gmap jsstring Answer.t) (answer : Answer.t) :
  answers !! answerId = Some answer ->
  updateAnswerEvaluation answerId evaluation now answers
  = (<[answerId := evaluated answer evaluation now]> answers,
     Returned (evaluated answer evaluation now)).
Proof. intros H. unfold updateAnswerEvaluation. by rewrite H. Qed.

Lemma updateAnswerEvaluation_missing
    (answerId : jsstring) (evaluation : AnswerEvaluation) (now : Z)
    (answers : gmap jsstring Answer.t) :
  answers !! answerId = None ->
  updateAnswerEvaluation answerId evaluation now answers
  = (answers, Thrown (lit "Answer " ++ answerId ++ lit " not found")).
Proof. intros H. unfold updateAnswerEvaluation. by rewrite H. Qed.

Lemma saveAnswer_created
    (uuid : jsstring) (now : Z) (answer : NewAnswer.t)
    (answers : gmap jsstring Answer.t) :
  saveAnswer uuid now answer answers
  = (<[uuid := created uuid now answer]> answers, created uuid now answer).
Proof. reflexivity. Qed.

(** [saveAnswer] takes the status, the score, the feedback and the
    evaluation instant from its argument, whatever they are; the record
    can be read back under the drawn id, the other ids keep their
    records, and an id that is already in use is overwritten. *)
Theorem saveAnswer_stores_argument
    (uuid : jsstring) (now : Z) (answer : NewAnswer.t)
    (answers : gmap jsstring Answer.t) :
  let saved := saveAnswer uuid now answer answers in
  getAnswer uuid saved.1 = Some saved.2
  /\ Answer.evaluationStatus saved.2 = NewAnswer.evaluationStatus answer
  /\ Answer.score saved.2 = NewAnswer.score answer
  /\ Answer.feedback saved.2 = NewAnswer.feedback answer
  /\ Answer.evaluatedAt saved.2 = NewAnswer.evaluatedAt answer
  /\ (forall other, other <> uuid ->
        getAnswer other saved.1 = getAnswer other answers)
  /\ (is_Some (answers !! uuid) ->
        size saved.1 = size answers /\ dom saved.1 = dom answers).
Proof.
  cbv zeta. rewrite saveAnswer_created. unfold getAnswer. simpl.
  split; [apply lookup_insert_eq|]. repeat (split; [reflexivity|]).
  split; [intros other Hother; by apply lookup_insert_ne|].
  intros Hused.
  assert (dom (<[uuid := created uuid now answer]> answers) = dom answers)
    as Hdom by (by apply dom_insert_lookup_L).
  split; [|done]. by rewrite <- !size_dom, Hdom.
Qed.

(** [updateAnswerEvaluation] never adds or removes an id, whether it
    returns or throws. *)
Theorem updateAnswerEvaluation_keeps_ids
    (answerId : jsstring) (evaluation : AnswerEvaluation) (now : Z)
    (answers : gmap jsstring Answer.t) :
  dom (updateAnswerEvaluation answerId evaluation now answers).1 = dom answers
  /\ size (updateAnswerEvaluation answerId evaluation now answers).1
     = size answers.
Proof.
  assert (dom (updateAnswerEvaluation answerId evaluation now answers).1
          = dom answers) as Hdom.
  { destruct (answers !! answerId) as [a|] eqn:E.
    - rewrite (updateAnswerEvaluation_found _ _ _ _ _ E). cbn [fst snd].
      by apply dom_insert_lookup_L.
    - by rewrite (updateAnswerEvaluation_missing _ _ _ _ E). }
  split; [done|]. by rewrite <- !size_dom, Hdom.
Qed.

(** The last evaluation wins: an evaluation applied after another one to
    the same id leaves what it would have left alone, the evaluation
    instant included. *)
Theorem updateAnswerEvaluation_last_wins
    (answerId : jsstring) (evaluation1 evaluation2 : AnswerEvaluation)
    (now1 now2 : Z) (answers : gmap jsstring Answer.t) :
  updateAnswerEvaluation answerId evaluation2 now2
    (updateAnswerEvaluation answerId evaluation1 now1 answers).1
  = updateAnswerEvaluation answerId evaluation2 now2 answers.
Proof.
  destruct (answers !! answerId) as [a|] eqn:E.
  - rewrite (updateAnswerEvaluation_found _ evaluation1 _ _ _ E). cbn [fst snd].
    rewrite (updateAnswerEvaluation_found _ evaluation2 now2 _
               (evaluated a evaluation1 now1)) by apply lookup_insert_eq.
    rewrite (updateAnswerEvaluation_found _ evaluation2 _ _ _ E).
    by rewrite insert_insert_eq.
  - by rewrite (updateAnswerEvaluation_missing _ evaluation1 _ _ E).
Qed.

(** Evaluations of two different ids can be applied in either order. *)
Theorem updateAnswerEvaluation_commutes
    (id1 id2 : jsstring) (evaluation1 evaluation2 : AnswerEvaluation)
    (now1 now2 : Z) (answers : gmap jsstring Answer.t) :
  id1 <> id2 ->
  (updateAnswerEvaluation id2 evaluation2 now2
     (updateAnswerEvaluation id1 evaluation1 now1 answers).1).1
  = (updateAnswerEvaluation id1 evaluation1 now1
       (updateAnswerEvaluation id2 evaluation2 now2 answers).1).1.
Proof.
  intros Hne.
  destruct (answers !! id1) as [a1|] eqn:E1;
    destruct (answers !! id2) as [a2|] eqn:E2.
  - rewrite (updateAnswerEvaluation_found id1 evaluation1 now1 answers _ E1).
    rewrite (updateAnswerEvaluation_found id2 evaluation2 now2 answers _ E2).
    cbn [fst snd].
    rewrite (updateAnswerEvaluation_found id2 evaluation2 now2 _ a2)
      by (by rewrite lookup_insert_ne).
    rewrite (updateAnswerEvaluation_found id1 evaluation1 now1 _ a1)
      by (by rewrite lookup_insert_ne).
    cbn [fst snd]. by apply insert_insert_ne.
  - rewrite (updateAnswerEvaluation_found id1 evaluation1 now1 answers _ E1).
    rewrite (updateAnswerEvaluation_missing id2 evaluation2 now2 answers E2).
    cbn [fst snd].
    rewrite (updateAnswerEvaluation_missing id2 evaluation2 now2)
      by (by rewrite lookup_insert_ne).
    by rewrite (updateAnswerEvaluation_found id1 evaluation1 now1 answers _ E1).
  - rewrite (updateAnswerEvaluation_missing id1 evaluation1 now1 answers E1).
    rewrite (updateAnswerEvaluation_found id2 evaluation2 now2 answers _ E2).
    cbn [fst snd].
    rewrite (updateAnswerEvaluation_found id2 evaluation2 now2 answers _ E2).
    by rewrite (updateAnswerEvaluation_missing id1 evaluation1 now1)
      by (by rewrite lookup_insert_ne).
  - rewrite (updateAnswerEvaluation_missing id1 evaluation1 now1 answers E1).
    rewrite (updateAnswerEvaluation_missing id2 evaluation2 now2 answers E2).
    cbn [fst snd].
    rewrite (updateAnswerEvaluation_missing id1 evaluation1 now1 answers E1).
    by rewrite (updateAnswerEvaluation_missing id2 evaluation2 now2 answers E2).
Qed.

Lemma updateAnswerEvaluation_commutes_witness :
  (updateAnswerEvaluation (lit "answer-2") Sample.evaluation 3000
     (updateAnswerEvaluation (lit "answer-1") Sample.evaluation 2000
        Scenario.afterSubmit).1).1
  = (updateAnswerEvaluation (lit "answer-1") Sample.evaluation 2000
       (updateAnswerEvaluation (lit "answer-2") Sample.evaluation 3000
          Scenario.afterSubmit).1).1.
Proof.
  apply (updateAnswerEvaluation_commutes (lit "answer-1") (lit "answer-2")).
  by vm_compute.
Defined.

(** ** The routes *)

Lemma submitHandler_run (toLowerCase : jsstring -> jsstring)
    (data : SubmitAnswerInput.t) (userId : jsstring)
    (questions : list Question.t) (env : SubmitEnv)
    (answers : gmap jsstring Answer.t) :
  submitHandler toLowerCase data userId questions env answers
  = let pending :=
      created (drawnId env) (submittedNow env) (submitRecord data userId) in
    let sent :=
      [SubmitJson (drawnId env) (lit "evaluating")
         (lit "Your answer is being evaluated...")] in
    match findQuestion (SubmitAnswerInput.questionId data) questions with
    | Some question =>
        (<[drawnId env :=
             evaluated pending
               (evaluateAnswer toLowerCase (SubmitAnswerInput.answerText data)
                  (Question.text question) (Question.difficulty question)
                  (Question.category question)
                  (None : option (Z -> unit -> unit))
                  (evaluationClock env) tt).2
               (evaluatedNow env)]> answers, sent)
    | None => (<[drawnId env := pending]> answers, sent)
    end.
Proof.
  unfold submitHandler. rewrite saveAnswer_created. cbv zeta.
  destruct (findQuestion (SubmitAnswerInput.questionId data) questions)
    as [question|]; [|done].
  change (Answer.id (created (drawnId env) (submittedNow env)
                       (submitRecord data userId))) with (drawnId env).
  rewrite (updateAnswerEvaluation_found (drawnId env) _ _ _
             (created (drawnId env) (submittedNow env)
                (submitRecord data userId)))
    by apply lookup_insert_eq.
  by rewrite insert_insert_eq.
Qed.

Lemma submitHandler_keeps_invariant (toLowerCase : jsstring -> jsstring)
    (data : SubmitAnswerInput.t) (userId : jsstring)
    (questions : list Question.t) (env : SubmitEnv)
    (answers : gmap jsstring Answer.t) :
  storeInvariant answers ->
  storeInvariant
    (submitHandler toLowerCase data userId questions env answers).1.
Proof.
  intros Hinv key a. rewrite submitHandler_run. cbv zeta.
  destruct (findQuestion (SubmitAnswerInput.questionId data) questions)
    as [question|]; cbn [fst];
    (destruct (decide (drawnId env = key)) as [<-|Hkey];
     [rewrite lookup_insert_eq; intros [= <-]
     |rewrite lookup_insert_ne by done; apply Hinv]).
  - split; [done|]. split; [by eexists|]. right.
    split; [done|]. split.
    + eexists. split; [reflexivity|]. simpl.
      rewrite evaluateAnswer_score. apply calculateScore_bounds.
    + split; by eexists.
  - split; [done|]. split; [by eexists|]. by left.
Qed.

(** Once the body is parsed, the submission route sends one response,
    the one that names the new record: the update that follows the
    evaluation finds the record, so the 500 of the [catch] block is not
    sent after it. *)
Theorem submitHandler_single_response (toLowerCase : jsstring -> jsstring)
    (data : SubmitAnswerInput.t) (userId : jsstring)
    (questions : list Question.t) (env : SubmitEnv)
    (answers : gmap jsstring Answer.t) :
  (submitHandler toLowerCase data userId questions env answers).2
  = [SubmitJson (drawnId env) (lit "evaluating")
       (lit "Your answer is being evaluated...")].
Proof.
  rewrite submitHandler_run. cbv zeta.
  by destruct (findQuestion (SubmitAnswerInput.questionId data) questions).
Qed.

(** When the question of the submission is in the table, the record ends
    completed: its score is the one [calculateScore] gives for the answer
    and the question, between 50 and 100, its feedback the one
    [generateFeedback] gives; the submission instant, the owner and the
    text are those of the submission, and the other ids keep their
    records. *)
Theorem submitHandler_known_question (toLowerCase : jsstring -> jsstring)
    (data : SubmitAnswerInput.t) (userId : jsstring)
    (questions : list Question.t) (env : SubmitEnv)
    (answers : gmap jsstring Answer.t) (question : Question.t) :
  findQuestion (SubmitAnswerInput.questionId data) questions = Some question ->
  let final := (submitHandler toLowerCase data userId questions env answers).1 in
  let score :=
    calculateScore toLowerCase (SubmitAnswerInput.answerText data)
      (Question.text question) (Question.difficulty question) in
  Question.id question = SubmitAnswerInput.questionId data
  /\ 50 <= score <= 100
  /\ (exists record,
        getAnswer (drawnId env) final = Some record
        /\ Answer.evaluationStatus record = Some (lit "completed")
        /\ Answer.score record = Some score
        /\ Answer.feedback record
           = Some (generateFeedback (SubmitAnswerInput.answerText data)
                     (Question.text question) score
                     (Question.category question) (Question.difficulty question))
        /\ Answer.evaluatedAt record = Some (evaluatedNow env)
        /\ Answer.submittedAt record = Some (submittedNow env)
        /\ Answer.id record = drawnId env
        /\ Answer.userId record = userId
        /\ Answer.interviewId record = SubmitAnswerInput.interviewId data
        /\ Answer.questionId record = SubmitAnswerInput.questionId data
        /\ Answer.answerText record = SubmitAnswerInput.answerText data
        /\ Answer.confidence record = SubmitAnswerInput.confidence data)
  /\ forall other, other <> drawnId env ->
       getAnswer other final = getAnswer other answers.
Proof.
  intros Hfound. cbv zeta. rewrite submitHandler_run. cbv zeta.
  rewrite Hfound. cbn [fst]. unfold getAnswer.
  split.
  { unfold findQuestion in Hfound. apply find_some in Hfound as [_ Hid].
    by apply bool_decide_eq_true in Hid. }
  split; [apply calculateScore_bounds|]. split.
  - eexists. split; [apply lookup_insert_eq|]. simpl.
    rewrite evaluateAnswer_score, evaluateAnswer_feedback. by repeat split.
  - intros other Hother. by rewrite lookup_insert_ne.
Qed.

(** When the question of the submission is not in the table, nothing is
    evaluated: the store is the one the creation left, and the record
    stays pending, with no score, feedback or evaluation instant. *)
Theorem submitHandler_unknown_question (toLowerCase : jsstring -> jsstring)
    (data : SubmitAnswerInput.t) (userId : jsstring)
    (questions : list Question.t) (env : SubmitEnv)
    (answers : gmap jsstring Answer.t) :
  findQuestion (SubmitAnswerInput.questionId data) questions = None ->
  let final := (submitHandler toLowerCase data userId questions env answers).1 in
  final = (submitAnswer data userId (drawnId env) (submittedNow env) answers).1
  /\ exists record,
       getAnswer (drawnId env) final = Some record /\ blankPending record.
Proof.
  intros Hmissing. cbv zeta. rewrite submitHandler_run. cbv zeta.
  rewrite Hmissing. cbn [fst]. split; [reflexivity|].
  eexists. split; [apply lookup_insert_eq|]. by repeat split.
Qed.

(** Every store the submission route builds from the empty one keeps
    each record under its own id, with a submission instant, and either
    pending with no score, feedback and evaluation instant, or completed
    with all three and a score between 50 and 100.  No record has the
    status [error]. *)
Theorem reachable_store_invariant (toLowerCase : jsstring -> jsstring)
    (answers : gmap jsstring Answer.t) :
  reachable toLowerCase answers ->
  storeInvariant answers
  /\ forall key a, answers !! key = Some a ->
       Answer.evaluationStatus a <> Some (lit "error").
Proof.
  intros Hreach.
  assert (storeInvariant answers) as Hinv.
  { induction Hreach as [|data userId questions env answers _ IH].
    - intros key a Hkey. by rewrite lookup_empty in Hkey.
    - by apply submitHandler_keeps_invariant. }
  split; [done|]. intros key a Hkey.
  destruct (Hinv key a Hkey) as (_ & _ & [[Hst _]|[Hst _]]);
    rewrite Hst; by vm_compute.
Qed.

(** The evaluation of an answer is sent to its owner only: an unknown id
    gets 404 and the id of another user's answer 403, with no field of
    the record; the owner gets the fields of the stored record. *)
Theorem evaluationHandler_owner_only (answerId userId : jsstring)
    (answers : gmap jsstring Answer.t) :
  match evaluationHandler answerId userId answers with
  | EvaluationJson id status score feedback evaluatedAt =>
      exists answer,
        answers !! answerId = Some answer
        /\ Answer.userId answer = userId
        /\ id = Answer.id answer
        /\ status = Answer.evaluationStatus answer
        /\ score = Answer.score answer
        /\ feedback = Answer.feedback answer
        /\ evaluatedAt = Answer.evaluatedAt answer
  | ErrorJson code error =>
      (code = 404 /\ error = lit "Answer not found"
       /\ answers !! answerId = None)
      \/ (code = 403 /\ error = lit "Not authorized"
          /\ exists answer,
               answers !! answerId = Some answer
               /\ Answer.userId answer <> userId)
  | _ => False
  end.
Proof.
  unfold evaluationHandler, getAnswer.
  destruct (answers !! answerId) as [answer|] eqn:E; [|by left].
  case_bool_decide as Howner.
  - right. repeat split. by exists answer.
  - exists answer. repeat split.
    by destruct (decide (Answer.userId answer = userId)).
Qed.


Lemma submitHandler_known_question_witness :
  exists record,
    getAnswer (lit "answer-1") Scenario.afterSubmit = Some record
    /\ Answer.evaluationStatus record = Some (lit "completed")
    /\ Answer.score record = Some 68.
Proof.
  destruct (submitHandler_known_question asciiToLowerCase Sample.data
              (lit "user-1") Scenario.questions Scenario.env ∅
              Scenario.question)
    as (_ & _ & (record & Hget & Hstatus & Hscore & _) & _).
  - by vm_compute.
  - exists record. split; [exact Hget|]. split; [exact Hstatus|].
    rewrite Hscore. by vm_compute.
Defined.

Lemma submitHandler_unknown_question_witness :
  exists record,
    getAnswer (lit "answer-2")
      (submitHandler asciiToLowerCase Scenario.otherData (lit "user-2")
         Scenario.questions Scenario.laterEnv Scenario.afterSubmit).1
    = Some record
    /\ blankPending record.
Proof.
  apply (submitHandler_unknown_question asciiToLowerCase Scenario.otherData
           (lit "user-2") Scenario.questions Scenario.laterEnv
           Scenario.afterSubmit).
  by vm_compute.
Defined.

Lemma reachable_store_invariant_witness :
  storeInvariant Scenario.afterSubmit.
Proof.
  apply (reachable_store_invariant asciiToLowerCase Scenario.afterSubmit).
  apply (reachable_submit asciiToLowerCase Sample.data (lit "user-1")
           Scenario.questions Scenario.env ∅).
  apply reachable_empty.
Defined.

(** ** The store with the order of its entries *)

Lemma mapGet_contents (key : jsstring) (m : Ordered.entries) :
  Ordered.mapGet key m = Ordered.contents m !! key.
Proof.
  unfold Ordered.contents. induction m as [|[k v] rest IH]; simpl.
  - by rewrite lookup_empty.
  - case_bool_decide as Hk.
    + subst. by rewrite lookup_insert_eq.
    + by rewrite lookup_insert_ne.
Qed.

Lemma contents_mapSet (key : jsstring) (value : Answer.t) (m : Ordered.entries) :
  Ordered.contents (Ordered.mapSet key value m)
  = <[key := value]> (Ordered.contents m).
Proof.
  unfold Ordered.contents. induction m as [|[k v] rest IH]; simpl; [done|].
  case_bool_decide as Hk.
  - subst. simpl. by rewrite insert_insert_eq.
  - simpl. rewrite IH. by apply insert_insert_ne.
Qed.

Lemma mapGet_None (key : jsstring) (m : Ordered.entries) :
  Ordered.mapGet key m = None <-> key ∉ m.*1.
Proof.
  induction m as [|[k v] rest IH]; simpl.
  - split; [intros _; apply not_elem_of_nil | done].
  - rewrite not_elem_of_cons. case_bool_decide as Hk.
    + split; [done | intros [Hne _]; by subst].
    + rewrite IH. split; [by intros | by intros [_ H]].
Qed.

Lemma mapSet_fresh (key : jsstring) (value : Answer.t) (m : Ordered.entries) :
  Ordered.mapGet key m = None ->
  Ordered.mapSet key value m = m ++ [(key, value)].
Proof.
  induction m as [|[k v] rest IH]; simpl; [done|].
  case_bool_decide as Hk; [done|]. intros H. by rewrite IH.
Qed.

Lemma mapSet_present (key : jsstring) (value old : Answer.t)
    (m : Ordered.entries) :
  Ordered.mapGet key m = Some old ->
  exists before after,
    m = before ++ (key, old) :: after
    /\ Ordered.mapSet key value m = before ++ (key, value) :: after.
Proof.
  induction m as [|[k v] rest IH]; simpl; [done|].
  case_bool_decide as Hk.
  - intros [= ->]. subst. by exists [], rest.
  - intros H. destruct (IH H) as (before & after & -> & ->).
    by exists ((k, v) :: before), after.
Qed.

(** The store with its order and the store without it do the same: what
    [saveAnswer] and [updateAnswerEvaluation] return is the same record
    or the same error, the contents afterwards are the same, and
    [getAnswer] finds the same record. *)
Theorem ordered_store_agrees
    (uuid answerId : jsstring) (now : Z) (answer : NewAnswer.t)
    (evaluation : AnswerEvaluation) (m : Ordered.entries) :
  Ordered.contents (Ordered.saveAnswer uuid now answer m).1
  = (saveAnswer uuid now answer (Ordered.contents m)).1
  /\ (Ordered.saveAnswer uuid now answer m).2
     = (saveAnswer uuid now answer (Ordered.contents m)).2
  /\ Ordered.contents (Ordered.updateAnswerEvaluation answerId evaluation now m).1
     = (updateAnswerEvaluation answerId evaluation now (Ordered.contents m)).1
  /\ (Ordered.updateAnswerEvaluation answerId evaluation now m).2
     = (updateAnswerEvaluation answerId evaluation now (Ordered.contents m)).2
  /\ Ordered.getAnswer answerId m = getAnswer answerId (Ordered.contents m).
Proof.
  split; [apply contents_mapSet|]. split; [reflexivity|].
  unfold Ordered.updateAnswerEvaluation, updateAnswerEvaluation,
    Ordered.getAnswer, getAnswer.
  rewrite mapGet_contents.
  destruct (Ordered.contents m !! answerId) as [a|]; cbn [fst snd];
    [|done].
  split; [apply contents_mapSet | done].
Qed.

(** A record saved under an id not in use goes to the end of the store:
    it is the last answer listed for its interview, and the lists of the
    other interviews are as before. *)
Theorem saved_answer_listed_last
    (uuid : jsstring) (now : Z) (answer : NewAnswer.t)
    (m : Ordered.entries) (interviewId : jsstring) :
  Ordered.getAnswer uuid m = None ->
  let saved := Ordered.saveAnswer uuid now answer m in
  saved.1 = m ++ [(uuid, saved.2)]
  /\ Ordered.getAnswersByInterview interviewId saved.1
     = Ordered.getAnswersByInterview interviewId m
       ++ (if bool_decide (NewAnswer.interviewId answer = interviewId)
           then [saved.2] else []).
Proof.
  intros Hfresh. cbv zeta.
  unfold Ordered.saveAnswer, Ordered.getAnswersByInterview, Ordered.mapValues.
  cbn [fst snd]. rewrite mapSet_fresh by done. split; [done|].
  rewrite fmap_app, filter_app. f_equal. simpl.
  rewrite filter_cons, filter_nil. simpl.
  case_bool_decide; [by rewrite decide_True | by rewrite decide_False].
Qed.

(** An evaluation leaves every entry of the store in its place: the ids
    are in the same order, and every interview lists as many answers as
    before. *)
Theorem evaluation_keeps_order
    (answerId : jsstring) (evaluation : AnswerEvaluation) (now : Z)
    (m : Ordered.entries) (interviewId : jsstring) :
  let updated := (Ordered.updateAnswerEvaluation answerId evaluation now m).1 in
  updated.*1 = m.*1
  /\ Answer.interviewId <$> Ordered.mapValues updated
     = Answer.interviewId <$> Ordered.mapValues m
  /\ length (Ordered.getAnswersByInterview interviewId updated)
     = length (Ordered.getAnswersByInterview interviewId m).
Proof.
  cbv zeta. unfold Ordered.updateAnswerEvaluation.
  destruct (Ordered.mapGet answerId m) as [old|] eqn:E; cbn [fst]; [|done].
  destruct (mapSet_present answerId (evaluated old evaluation now) old m E)
    as (before & after & -> & Hset).
  change (Ordered.mapSet answerId (evaluated old evaluation now)
            (before ++ (answerId, old) :: after)
          = before ++ (answerId, evaluated old evaluation now) :: after)
    in Hset.
  unfold evaluated in Hset. rewrite Hset.
  unfold Ordered.getAnswersByInterview, Ordered.mapValues.
  rewrite !fmap_app, !fmap_cons, !filter_app, !filter_cons. simpl.
  repeat split.
  rewrite !length_app.
  destruct (decide (Answer.interviewId old = interviewId)); done.
Qed.

(** When the ids of the store are pairwise distinct, the answers listed
    for an interview are the stored records that name it, and no other;
    an interview that no record names has the empty list. *)
Theorem listed_answers_are_the_matching_records
    (interviewId : jsstring) (m : Ordered.entries) :
  NoDup m.*1 ->
  (forall a,
     a ∈ Ordered.getAnswersByInterview interviewId m
     <-> Answer.interviewId a = interviewId
         /\ exists key, Ordered.getAnswer key m = Some a)
  /\ ((forall key a, Ordered.getAnswer key m = Some a ->
         Answer.interviewId a <> interviewId) ->
      Ordered.getAnswersByInterview interviewId m = []).
Proof.
  intros Hkeys.
  assert (forall a,
            a ∈ Ordered.getAnswersByInterview interviewId m
            <-> Answer.interviewId a = interviewId
                /\ exists key, Ordered.getAnswer key m = Some a) as Hmem.
  { intros a.
    unfold Ordered.getAnswersByInterview, Ordered.mapValues, Ordered.getAnswer.
    rewrite list_elem_of_filter, list_elem_of_fmap. split.
    - intros [Hi [[k a'] [-> Hin]]]. split; [done|]. exists k.
      rewrite mapGet_contents. by apply elem_of_list_to_map_1.
    - intros [Hi [k Hk]]. split; [done|]. exists (k, a). split; [done|].
      rewrite mapGet_contents in Hk. by apply elem_of_list_to_map_2. }
  split; [done|]. intros Hnone.
  destruct (Ordered.getAnswersByInterview interviewId m) as [|a l] eqn:E;
    [done|].
  destruct (proj1 (Hmem a)) as [Hi [k Hk]]; [left|].
  by destruct (Hnone k a Hk).
Qed.

(** Saving and evaluating keep the ids of the store pairwise distinct. *)
Theorem ordered_ids_stay_distinct
    (uuid answerId : jsstring) (now : Z) (answer : NewAnswer.t)
    (evaluation : AnswerEvaluation) (m : Ordered.entries) :
  NoDup m.*1 ->
  NoDup (Ordered.saveAnswer uuid now answer m).1.*1
  /\ NoDup (Ordered.updateAnswerEvaluation answerId evaluation now m).1.*1.
Proof.
  intros Hkeys.
  assert (forall key value, NoDup (Ordered.mapSet key value m).*1) as Hset.
  { intros key value.
    destruct (Ordered.mapGet key m) as [old|] eqn:E.
    - destruct (mapSet_present key value old m E)
        as (before & after & Hm & ->).
      rewrite Hm in Hkeys. by rewrite fmap_app, fmap_cons in *.
    - rewrite mapSet_fresh by done. rewrite fmap_app. simpl.
      apply NoDup_app. split; [done|]. split; [|apply NoDup_singleton].
      intros k Hk ->%list_elem_of_singleton. by apply mapGet_None in E. }
  split; [apply Hset|]. unfold Ordered.updateAnswerEvaluation.
  destruct (Ordered.mapGet answerId m); cbn [fst]; [apply Hset | done].
Qed.


Lemma saved_answer_listed_last_witness :
  length (Ordered.getAnswersByInterview (lit "interview-2") Scenario.ordered)
  = 1%nat.
Proof.
  unfold Scenario.ordered.
  rewrite (proj2 (saved_answer_listed_last (lit "answer-2") 1200
                    (submitRecord Scenario.otherData (lit "user-2"))
                    (Ordered.saveAnswer (lit "answer-1") 1000
                       (submitRecord Sample.data (lit "user-1")) []).1
                    (lit "interview-2") eq_refl)).
  by vm_compute.
Defined.

Lemma listed_answers_are_the_matching_records_witness :
  Ordered.getAnswersByInterview (lit "interview-3") Scenario.ordered = [].
Proof.
  apply (listed_answers_are_the_matching_records (lit "interview-3")
           Scenario.ordered).
  - apply (bool_decide_unpack _). by vm_compute.
  - intros key a Hget Hi.
    unfold Ordered.getAnswer, Scenario.ordered in Hget. simpl in Hget.
    repeat case_bool_decide; simplify_eq; by vm_compute in Hi.
Defined.

Lemma ordered_ids_stay_distinct_witness :
  NoDup (Ordered.saveAnswer (lit "answer-3") 1400
           (submitRecord Scenario.otherData (lit "user-2")) Scenario.ordered).1.*1.
Proof.
  apply (ordered_ids_stay_distinct (lit "answer-3") (lit "answer-1") 1400
           (submitRecord Scenario.otherData (lit "user-2")) Sample.evaluation
           Scenario.ordered).
  apply (bool_decide_unpack _). by vm_compute.
Defined.

